(** * IoTorch, linux-mctp server connection: MctpSerialLink and MctpBusController

    A shallow embedding of [MctpSerialLink.py] and [MctpBusController.py]
    and the properties of the management-bus specification that are
    stated about them.

    Conventions of the embedding.
    - Python [int] is [Z]; [str] is [string] (code points below 256);
      [bytes] is [list Z]; [None]-able attributes are [option].
    - Objects are references (indices) into a heap, so that the class
      attributes [_assigned_links], [_allocated_eids] and [_instance] are
      shared by every object, as in the source.
    - A statement that may raise returns a [res]; the messages of the
      [assert] statements are kept as in the source.
    - What the operating system, the file system, the [mctp] tool, systemd
      and D-Bus answer is an argument of the function that asks
      (an environment record), never a fixed choice of the model.
    - A call to the system whose outcome the source does not look at
      ([os.kill], [subprocess.Popen], [systemctl start] and [stop]) is
      recorded in the order made and returns.
    - The iteration order of a Python [set] is unspecified: where the source
      takes "the first" element of a set, the environment says which one. *)

From Stdlib Require Import ZArith Ascii String DecimalString DecimalNat Lia.
From stdpp Require Import base option list strings gmap.

Open Scope Z_scope.

(* ===================================================================== *)
(** * Python-level basics                                                 *)
(* ===================================================================== *)

Module Py.

(** The exceptions the two modules raise or catch. *)
Inductive exn : Type :=
| AssertionError (msg : string)
| FileNotFoundError
| DBusException
| StructError
| OSError
| ValueError
| AttributeError.

(** Outcome of a statement: a value, a raised exception, or no outcome
    within the fuel given to a loop or recursion that the source does not
    bound. *)
Inductive res (A : Type) : Type :=
| Ok (a : A)
| Raise (e : exn)
| Diverge.
Arguments Ok {A} a.
Arguments Raise {A} e.
Arguments Diverge {A}.

Definition is_ok {A} (r : res A) : bool :=
  match r with Ok _ => true | _ => false end.

(** Sequencing of statements that may raise. *)
#[global] Instance res_ret : MRet res := λ A a, Ok a.
#[global] Instance res_bind : MBind res := λ A B f r,
  match r with
  | Ok a => f a
  | Raise e => Raise e
  | Diverge => Diverge
  end.

(** [str(e)], as used by the [print] of an exception handler: the message
    of a failed [assert]; for an exception raised by the system the model
    keeps the class only. *)
Definition str_exn (e : exn) : string :=
  match e with
  | AssertionError msg => msg
  | FileNotFoundError => "FileNotFoundError"
  | DBusException => "DBusException"
  | StructError => "struct.error"
  | OSError => "OSError"
  | ValueError => "ValueError"
  | AttributeError => "AttributeError"
  end.

(** [range(a, b)] as the list of its elements. *)
Definition range (a b : Z) : list Z := seqZ a (b - a).

(** [s.startswith(p)] *)
Definition startswith (s p : string) : bool := String.prefix p s.

(** [s.endswith(p)] *)
Definition endswith (s p : string) : bool :=
  String.prefix (String.rev p) (String.rev s).

(** [p in s] for strings: [p] occurs in [s] at some position. *)
Fixpoint contains (s p : string) : bool :=
  String.prefix p s ||
  match s with
  | EmptyString => false
  | String _ s' => contains s' p
  end.

(** [l.remove(x)]: deletes the first occurrence, [ValueError] if there is
    none. *)
Fixpoint list_remove {A} `{EqDecision A} (x : A) (l : list A) : res (list A) :=
  match l with
  | [] => Raise ValueError
  | y :: l' =>
      if decide (x = y) then Ok l'
      else match list_remove x l' with
           | Ok r => Ok (y :: r)
           | Raise e => Raise e
           | Diverge => Diverge
           end
  end.

(** [x in l] for lists. *)
Definition list_in {A} `{EqDecision A} (x : A) (l : list A) : bool :=
  bool_decide (x ∈ l).

End Py.
Import Py.

(* ===================================================================== *)
(** * The regular expression of [_configure_eid_range]                    *)
(* ===================================================================== *)

Module Regex.

(** [\d] on code points below 256. *)
Definition is_digit (c : ascii) : bool :=
  let n := N_of_ascii c in (48 <=? n)%N && (n <=? 57)%N.

(** [\s] on code points below 256: tab to carriage return, the four
    separators 28 to 31, space, NEL and the no-break space. *)
Definition is_space (c : ascii) : bool :=
  let n := N_of_ascii c in
  ((9 <=? n)%N && (n <=? 13)%N) || ((28 <=? n)%N && (n <=? 32)%N)
  || (n =? 133)%N || (n =? 160)%N.

(** A greedy run of [\s]. *)
Fixpoint skip_spaces (s : string) : string :=
  match s with
  | String c s' => if is_space c then skip_spaces s' else s
  | EmptyString => s
  end.

(** A greedy run of [\d]: the digits taken and the rest. *)
Fixpoint take_digits (s : string) : string * string :=
  match s with
  | String c s' =>
      if is_digit c
      then let '(d, r) := take_digits s' in (String c d, r)
      else (EmptyString, s)
  | EmptyString => (EmptyString, s)
  end.

(** The pattern [\[\s*(\d+)\s*,\s*(\d+)\s*\]] anchored at the head of
    [s]; the two groups on a match.  Every repeated class is disjoint
    from the token that has to follow it, so the greedy reading is the
    only one and no backtracking is needed. *)
Definition match_here (s : string) : option (string * string) :=
  match s with
  | String "["%char r0 =>
      let '(num1, r1) := take_digits (skip_spaces r0) in
      if decide (num1 = EmptyString) then None else
      match skip_spaces r1 with
      | String ","%char r2 =>
          let '(num2, r3) := take_digits (skip_spaces r2) in
          if decide (num2 = EmptyString) then None else
          match skip_spaces r3 with
          | String "]"%char _ => Some (num1, num2)
          | _ => None
          end
      | _ => None
      end
  | _ => None
  end.

(** [re.search(pattern, line)]: the leftmost position with a match;
    [match.groups()] when there is one. *)
Fixpoint re_search (line : string) : option (string * string) :=
  match match_here line with
  | Some g => Some g
  | None =>
      match line with
      | String _ rest => re_search rest
      | EmptyString => None
      end
  end.

(** [int(num)] for a string of decimal digits (no bound on the number of
    digits). *)
Fixpoint int_acc (acc : Z) (num : string) : Z :=
  match num with
  | String c num' => int_acc (10 * acc + (Z.of_N (N_of_ascii c) - 48)) num'
  | EmptyString => acc
  end.
Definition int (num : string) : Z := int_acc 0 num.

(** [str(n)] for a natural number. *)
Definition str (n : nat) : string := NilZero.string_of_uint (Nat.to_uint n).

(** Every character of [s] is in the class [f]. *)
Fixpoint all_chars (f : ascii → bool) (s : string) : bool :=
  match s with
  | String c s' => f c && all_chars f s'
  | EmptyString => true
  end.


(** The head of [r], if there is one, is outside the class [f]: a greedy
    run of [f] ends in front of [r]. *)
Definition stops (f : ascii → bool) (r : string) : Prop :=
  match r with String c _ => f c = false | EmptyString => True end.

End Regex.

(* ===================================================================== *)
(** * MctpBusController._configure_eid_range                              *)
(* ===================================================================== *)

Module Config.
Import Regex.

(** A file system for [open(path, "r")]: the lines of the file, each with
    its line end, or nothing when the file does not exist. *)
Definition filesystem := string → option (list string).

Definition msg_invalid_values (config_file_path : string) : string :=
  "invalid values for dynamic_eid_range in " +:+ config_file_path.
Definition msg_parse_error (config_file_path : string) : string :=
  "Error parsing dynamic_eid_range in " +:+ config_file_path.
Definition msg_not_found (config_file_path : string) : string :=
  "dynamic_eid_range not found in " +:+ config_file_path.

(** The body of [for line in file]: the range assigned to
    [self._eid_range] before [return], or the assertion that fails. *)
Fixpoint scan_lines (config_file_path : string) (lines : list string)
  : res (list Z) :=
  match lines with
  | [] => Raise (AssertionError (msg_not_found config_file_path))
  | line :: rest =>
      if startswith line "dynamic_eid_range" then
        match re_search line with
        | Some (num1, num2) =>
            let start := Z.min (int num1) (int num2) in
            let end_ := Z.max (int num1) (int num2) in
            if bool_decide (start > 0) && bool_decide (end_ > 0)
            then Ok (range start (end_ + 1))
            else Raise (AssertionError (msg_invalid_values config_file_path))
        | None => Raise (AssertionError (msg_parse_error config_file_path))
        end
      else scan_lines config_file_path rest
  end.

(** The [try] block of [_configure_eid_range]. *)
Definition try_body (fs : filesystem) (config_file_path : string)
  : res (list Z) :=
  match fs config_file_path with
  | None => Raise FileNotFoundError
  | Some lines => scan_lines config_file_path lines
  end.

(** What the two handlers print. *)
Definition handler_output (config_file_path : string) (e : exn) : string :=
  match e with
  | FileNotFoundError =>
      "Error: File '" +:+ config_file_path +:+ "' not found."
  | _ => "Error when reading " +:+ config_file_path +:+ ": " +:+ str_exn e
  end.

(** [_configure_eid_range(self, config_file_path)], called with
    [self._eid_range = eid_range0]: the new [self._eid_range] and the
    lines printed.  Both handlers end normally, so the call never raises:
    an assertion that fails inside the [try] block is caught by
    [except Exception] like any other error. *)
Definition _configure_eid_range (fs : filesystem) (eid_range0 : list Z)
    (config_file_path : string) : list Z * list string :=
  match try_body fs config_file_path with
  | Ok r => (r, [])
  | Raise e => (eid_range0, [handler_output config_file_path e])
  | Diverge => (eid_range0, [])
  end.

(** The text of a line that declares the range [[s, e]]: what stands
    between the keyword and the bracket, the blanks around the two numbers,
    and what follows the closing bracket. *)
Record layout : Type := mkLayout {
  before_bracket : string;
  blank1 : string;
  blank2 : string;
  blank3 : string;
  blank4 : string;
  after_bracket : string
}.

Definition declaration (L : layout) (s e : nat) : string :=
  "dynamic_eid_range" +:+ before_bracket L +:+ "[" +:+ blank1 L +:+ str s
    +:+ blank2 L +:+ "," +:+ blank3 L +:+ str e +:+ blank4 L +:+ "]"
    +:+ after_bracket L.


(** The usual way to write it: [dynamic_eid_range = [s, e]]. *)
Definition usual : layout :=
  mkLayout " = " "" "" " " "" (String (ascii_of_nat 10) "").

End Config.

(* ===================================================================== *)
(** * Objects, class attributes and the calls made to the system          *)
(* ===================================================================== *)

Module Runtime.

(** A call that leaves the process, in the order made. *)
Inductive event : Type :=
| Popen (argv : list string) (pid : Z)   (* subprocess.Popen, with the pid it got *)
| Run (argv : list string)               (* subprocess.run *)
| Kill (pid : Z)                         (* os.kill(pid, signal.SIGTERM) *)
| SystemBus                              (* dbus.SystemBus() *)
| Discover (root : string)               (* one walk of the D-Bus tree *)
| Sleep (seconds : Z)                    (* time.sleep *)
| Socket (family type proto : Z)         (* socket.socket *)
| SendTo (payload address : list Z)      (* sock.sendto *)
| SocketClose.                           (* sock.close *)

#[global] Instance event_eq_dec : EqDecision event.
Proof. solve_decision. Defined.

(** The attributes of an [MctpSerialLink] object. *)
Record MctpSerialLink : Type := mkLink {
  _eid : option Z;
  _link_pid : option Z;
  _link_name : option string;
  _device_path : option string
}.

#[global] Instance link_eq_dec : EqDecision MctpSerialLink.
Proof. solve_decision. Defined.

(** The attributes of an [MctpBusController] object; [_serial_links] holds
    references to link objects.  [_dbus_root] stands for the three
    attributes assigned together when the bus is connected. *)
Record MctpBusController : Type := mkController {
  _eid_range : list Z;
  _serial_links : list nat;
  _dbus_root : option string
}.

(** The Python process: both heaps, the class attributes of the two
    classes, the calls made so far (oldest first) and the lines printed. *)
Record process : Type := mkProcess {
  link_objs : list MctpSerialLink;
  _assigned_links : list nat;
  _allocated_eids : list Z;
  ctl_objs : list MctpBusController;
  _instance : option nat;
  calls : list event;
  stdout : list string
}.

(** A freshly started interpreter with both modules imported. *)
Definition start : process := mkProcess [] [] [] [] None [] [].

Definition with_link_objs (f : list MctpSerialLink → list MctpSerialLink)
    (p : process) : process :=
  mkProcess (f (link_objs p)) (_assigned_links p) (_allocated_eids p)
            (ctl_objs p) (_instance p) (calls p) (stdout p).
Definition with_assigned_links (f : list nat → list nat) (p : process) : process :=
  mkProcess (link_objs p) (f (_assigned_links p)) (_allocated_eids p)
            (ctl_objs p) (_instance p) (calls p) (stdout p).
Definition with_allocated_eids (f : list Z → list Z) (p : process) : process :=
  mkProcess (link_objs p) (_assigned_links p) (f (_allocated_eids p))
            (ctl_objs p) (_instance p) (calls p) (stdout p).
Definition with_ctl_objs (f : list MctpBusController → list MctpBusController)
    (p : process) : process :=
  mkProcess (link_objs p) (_assigned_links p) (_allocated_eids p)
            (f (ctl_objs p)) (_instance p) (calls p) (stdout p).
Definition with_instance (i : option nat) (p : process) : process :=
  mkProcess (link_objs p) (_assigned_links p) (_allocated_eids p)
            (ctl_objs p) i (calls p) (stdout p).
Definition call (e : event) (p : process) : process :=
  mkProcess (link_objs p) (_assigned_links p) (_allocated_eids p)
            (ctl_objs p) (_instance p) (calls p ++ [e]) (stdout p).
Definition print (line : string) (p : process) : process :=
  mkProcess (link_objs p) (_assigned_links p) (_allocated_eids p)
            (ctl_objs p) (_instance p) (calls p) (stdout p ++ [line]).

(** Assignment to the attributes of the link object [self]. *)
Definition set_link (self : nat) (f : MctpSerialLink → MctpSerialLink)
    (p : process) : process :=
  with_link_objs (alter f self) p.
Definition set_eid (v : option Z) (l : MctpSerialLink) : MctpSerialLink :=
  mkLink v (_link_pid l) (_link_name l) (_device_path l).
Definition set_link_pid (v : option Z) (l : MctpSerialLink) : MctpSerialLink :=
  mkLink (_eid l) v (_link_name l) (_device_path l).
Definition set_link_name (v : option string) (l : MctpSerialLink) : MctpSerialLink :=
  mkLink (_eid l) (_link_pid l) v (_device_path l).
Definition set_device_path (v : option string) (l : MctpSerialLink) : MctpSerialLink :=
  mkLink (_eid l) (_link_pid l) (_link_name l) v.

(** Assignment to the attributes of the controller object [self]. *)
Definition set_ctl (self : nat) (f : MctpBusController → MctpBusController)
    (p : process) : process :=
  with_ctl_objs (alter f self) p.
Definition set_eid_range (v : list Z) (c : MctpBusController) : MctpBusController :=
  mkController v (_serial_links c) (_dbus_root c).
Definition set_serial_links (v : list nat) (c : MctpBusController) : MctpBusController :=
  mkController (_eid_range c) v (_dbus_root c).
Definition set_dbus_root (v : option string) (c : MctpBusController) : MctpBusController :=
  mkController (_eid_range c) (_serial_links c) v.

(** [str(n)] for a Python integer. *)
Definition str_int (n : Z) : string :=
  if n <? 0 then "-" +:+ Regex.str (Z.to_nat (- n)) else Regex.str (Z.to_nat n).

End Runtime.
Import Runtime.

(* ===================================================================== *)
(** * MctpSerialLink                                                      *)
(* ===================================================================== *)

Module SerialLink.

(** What the system answers while one link is being opened. *)
Record open_env : Type := mkOpenEnv {
  (** which element [list(set(...))] puts first, as a rotation *)
  set_first : nat;
  (** [os.path.exists(device_path)] *)
  path_exists : bool;
  (** the first [_get_interfaces()], taken before the device is bound *)
  initial_interfaces : list string;
  (** the pid of the process started by [subprocess.Popen] *)
  popen_pid : Z;
  (** the successive [_get_interfaces()] results seen by the polling loop
      before its two seconds are over, each in the iteration order of the
      set *)
  interface_polls : list (list string);
  (** return code of [mctp link set <name> up] *)
  link_up_returncode : Z;
  (** return code of [mctp address add <eid> dev <name>] *)
  address_add_returncode : Z
}.

Definition msg_all_allocated (device_path : string) : string :=
  "Unable to allocate EID for " +:+ device_path +:+ ". All EIDs have been allocated.".
Definition msg_path_not_found (device_path : string) : string :=
  "Device path not found for " +:+ device_path.
Definition msg_interface_timeout (device_path : string) : string :=
  "Timeout error waiting for newly bound network interface for " +:+ device_path.
Definition msg_link_up (link_name : string) : string :=
  "unable to bring up link associated with " +:+ link_name.
Definition msg_address_add (device_path : string) : string :=
  "unable to assign eid to link associated with " +:+ device_path.

(** [list(set(allowed_eids) - set(MctpSerialLink._allocated_eids))] *)
Definition remaining_eids (env : open_env) (allowed_eids allocated : list Z)
    : list Z :=
  rotate (set_first env) (list_difference (remove_dups allowed_eids) allocated).

(** [_wait_for_new_interface(initial_interfaces)]: the first poll that shows
    a name absent from the snapshot returns one such name ([set.pop()]);
    [None] when the time is over.  What [_get_interfaces()] returns at each
    poll is given; the [ip -o link show] behind it and the tenth of a
    second slept between two polls are not recorded as calls. *)
Fixpoint _wait_for_new_interface (initial : list string)
    (polls : list (list string)) : option string :=
  match polls with
  | [] => None
  | current :: later =>
      match list_difference current initial with
      | name :: _ => Some name
      | [] => _wait_for_new_interface initial later
      end
  end.

(** [MctpSerialLink(device_path, allowed_eids)].  The object is created
    first, so a constructor that raises leaves an object behind (which
    Python finalises through [__del__], that is [close]); the reference
    is returned only when the constructor completes. *)
Definition __init__ (env : open_env) (device_path : string)
    (allowed_eids : list Z) (p0 : process) : process * res nat :=
  let self := length (link_objs p0) in
  let p := with_link_objs (λ h, h ++ [mkLink None None None None]) p0 in
  (* make sure there are still EIDs that can be assigned *)
  match remaining_eids env allowed_eids (_allocated_eids p) with
  | [] => (p, Raise (AssertionError (msg_all_allocated device_path)))
  | next_eid :: _ =>
      (* validate the path *)
      if negb (path_exists env)
      then (p, Raise (AssertionError (msg_path_not_found device_path)))
      else
        let p := set_link self (set_device_path (Some device_path)) p in
        (* bind the serial device *)
        let p := call (Popen ["sudo"; "mctp"; "link"; "serial"; device_path]
                             (popen_pid env)) p in
        let p := set_link self (set_link_pid (Some (popen_pid env))) p in
        (* get the new interface associated with this link *)
        let found := _wait_for_new_interface (initial_interfaces env)
                                             (interface_polls env) in
        let p := set_link self (set_link_name found) p in
        match found with
        | None => (p, Raise (AssertionError (msg_interface_timeout device_path)))
        | Some link_name =>
            (* configure the port address and bring it up *)
            let p := call (Run ["sudo"; "mctp"; "link"; "set"; link_name; "up"]) p in
            if bool_decide (link_up_returncode env ≠ 0)
            then (p, Raise (AssertionError (msg_link_up link_name)))
            else
              let p := call (Run ["sudo"; "mctp"; "address"; "add";
                                  str_int next_eid; "dev"; link_name]) p in
              if bool_decide (address_add_returncode env ≠ 0)
              then (p, Raise (AssertionError (msg_address_add device_path)))
              else
                let p := with_assigned_links (λ l, l ++ [self]) p in
                let p := set_link self (set_eid (Some next_eid)) p in
                let p := with_allocated_eids (λ l, l ++ [next_eid]) p in
                (p, Ok self)
        end
  end.

(** [self in MctpSerialLink._assigned_links] followed by [remove]. *)
Definition remove_if_in {A} `{EqDecision A} (x : A) (l : list A)
    : res (list A) :=
  if list_in x l then list_remove x l else Ok l.

(** [close(self)].  [os.kill] is recorded as a call; the three removals are
    the statements of the source, each behind its membership test.  A
    reference that denotes no object has no method to call: the process
    is left as it is. *)
Definition close (self : nat) (p : process) : process * res unit :=
  match link_objs p !! self with
  | None => (p, Ok tt)
  | Some l =>
      let p := match _link_pid l with
               | Some pid => call (Kill pid) p
               | None => p
               end in
      match remove_if_in self (_assigned_links p) with
      | Ok links =>
          let p := with_assigned_links (λ _, links) p in
          match match _eid l with
                | Some e => remove_if_in e (_allocated_eids p)
                | None => Ok (_allocated_eids p)
                end with
          | Ok eids =>
              let p := with_allocated_eids (λ _, eids) p in
              let p := set_link self (λ _, mkLink None None None None) p in
              (p, Ok tt)
          | Raise e => (p, Raise e)
          | Diverge => (p, Diverge)
          end
      | Raise e => (p, Raise e)
      | Diverge => (p, Diverge)
      end
  end.

Definition get_eid (self : nat) (p : process) : option Z :=
  l ← link_objs p !! self; _eid l.
Definition get_link_name (self : nat) (p : process) : option string :=
  l ← link_objs p !! self; _link_name l.
Definition get_device_path (self : nat) (p : process) : option string :=
  l ← link_objs p !! self; _device_path l.

(** A use of the class: links are opened and closed in any order. *)
Inductive op : Type :=
| Open (env : open_env) (device_path : string) (allowed_eids : list Z)
| Close (self : nat).

Definition step (p : process) (o : op) : process :=
  match o with
  | Open env device_path allowed_eids =>
      (__init__ env device_path allowed_eids p).1
  | Close self => (close self p).1
  end.

Definition run (ops : list op) (p : process) : process := foldl step p ops.

(** The candidates an operation draws EIDs from are inside [eid_range]. *)
Definition draws_from (eid_range : list Z) (o : op) : Prop :=
  match o with
  | Open _ _ allowed_eids => allowed_eids ⊆ eid_range
  | Close _ => True
  end.

(** A link is live while it holds an EID. *)
Definition holds (p : process) (self : nat) (e : Z) : Prop :=
  get_eid self p = Some e.

(** The attributes of a link before it is opened and after it is closed. *)
Definition blank_link : MctpSerialLink := mkLink None None None None.

(** What the two class attributes and the objects have in common in every
    process the class can produce. *)
Record pool_inv (p : process) : Prop := {
  inv_eids_nodup : NoDup (_allocated_eids p);
  inv_links_nodup : NoDup (_assigned_links p);
  inv_links_bound :
    ∀ a, a ∈ _assigned_links p → (a < length (link_objs p))%nat;
  inv_held : ∀ a e, holds p a e → e ∈ _allocated_eids p;
  inv_owned : ∀ e, e ∈ _allocated_eids p → ∃ a, holds p a e;
  inv_unique : ∀ a b e, holds p a e → holds p b e → a = b
}.

(** The object created by a constructor call, with what its [_eid] is at
    the end of the call, next to the objects that were there before. *)
Inductive opened (p0 p : process) (self : nat) : option Z → Prop :=
| opened_intro (l : MctpSerialLink) :
    self = length (link_objs p0) →
    link_objs p = link_objs p0 ++ [l] →
    ctl_objs p = ctl_objs p0 →
    _instance p = _instance p0 →
    opened p0 p self (_eid l).

End SerialLink.

(* ===================================================================== *)
(** * MctpBusController: the walk of the D-Bus object tree                *)
(* ===================================================================== *)

Module Walker.

(** What the [mctpd] service answers on D-Bus at one moment. *)
Record dbus : Type := mkDbus {
  (** the names of the child nodes in the introspection data of a path;
      nothing when the call raises [DBusException] *)
  introspect : string → option (list string);
  (** the properties [EID] and [NetworkId] of the endpoint interface at a
      path; nothing when a [Get] raises [DBusException] *)
  endpoint_props : string → option (Z * Z)
}.

(** The values stored in the dictionary built for an endpoint. *)
Inductive pyval : Type :=
| PInt (n : Z)
| PStr (s : string)
| PNone.

#[global] Instance pyval_eq_dec : EqDecision pyval.
Proof. solve_decision. Defined.

Definition of_opt_str (o : option string) : pyval :=
  match o with Some s => PStr s | None => PNone end.

(** The links owned by the controller [self]. *)
Definition serial_links (self : nat) (p : process) : list nat :=
  default [] (_serial_links <$> ctl_objs p !! self).

(** The two keys that [_get_properties] adds for a link. *)
Definition link_fields_of (p : process) (link : nat)
    (r : gmap string pyval) : Prop :=
  r !! "link_name" = Some (of_opt_str (SerialLink.get_link_name link p))
  ∧ r !! "device_path" = Some (of_opt_str (SerialLink.get_device_path link p)).
Definition no_link_fields (r : gmap string pyval) : Prop :=
  r !! "link_name" = None ∧ r !! "device_path" = None.

(** The loop of [_get_link_from_eid]. *)
Fixpoint first_link_with (p : process) (eid : Z) (links : list nat)
    : option nat :=
  match links with
  | [] => None
  | link :: rest =>
      if decide (SerialLink.get_eid link p = Some eid) then Some link
      else first_link_with p eid rest
  end.

Definition _get_link_from_eid (self : nat) (eid : Z) (p : process)
    : option nat :=
  first_link_with p eid (serial_links self p).

(** [_get_properties(self, path)]: the dictionary, or [None] after a
    [DBusException] (the line printed by the handler is left out). *)
Definition _get_properties (bus : dbus) (self : nat) (path : string)
    (p : process) : option (gmap string pyval) :=
  match endpoint_props bus path with
  | None => None
  | Some (eid, network_id) =>
      let result : gmap string pyval :=
        <["path" := PStr path]>
          (<["network_id" := PInt network_id]> {["eid" := PInt eid]}) in
      match _get_link_from_eid self eid p with
      | Some serial_link =>
          Some (<["device_path" :=
                    of_opt_str (SerialLink.get_device_path serial_link p)]>
                  (<["link_name" :=
                       of_opt_str (SerialLink.get_link_name serial_link p)]>
                     result))
      | None => Some result
      end
  end.

(** The record [r] is what [_get_properties] builds for some endpoint when
    the controller [self] looks for its link in the process [p]. *)
Definition correlated (self : nat) (p : process) (r : gmap string pyval)
    : Prop :=
  ∃ eid, r !! "eid" = Some (PInt eid) ∧
    match _get_link_from_eid self eid p with
    | Some link =>
        link ∈ serial_links self p
        ∧ SerialLink.holds p link eid
        ∧ link_fields_of p link r
    | None =>
        (∀ link, link ∈ serial_links self p → ¬ SerialLink.holds p link eid)
        ∧ no_link_fields r
    end.

Definition child_path (path child : string) : string :=
  if negb (endswith path "/") then path +:+ "/" +:+ child
  else path +:+ child.

(** The [for child in children] loop of [_walk_tree]; [walk] is the
    recursive call. *)
Fixpoint walk_children (walk : string → res (list (gmap string pyval)))
    (get : string → option (gmap string pyval)) (path : string)
    (children : list string) (results : list (gmap string pyval))
    : res (list (gmap string pyval)) :=
  match children with
  | [] => Ok results
  | child :: rest =>
      let cp := child_path path child in
      if contains cp "/endpoints/" then
        match get cp with
        | Some props => walk_children walk get path rest (results ++ [props])
        | None => walk_children walk get path rest results
        end
      else
        match walk cp with
        | Ok found => walk_children walk get path rest (results ++ found)
        | Raise e => Raise e
        | Diverge => Diverge
        end
  end.

(** [_walk_tree(self, path)].  The source recurses as deep as the tree
    goes; [depth] bounds the recursion and a walk that needs more has no
    outcome. *)
Fixpoint _walk_tree (depth : nat) (bus : dbus) (self : nat) (p : process)
    (path : string) : res (list (gmap string pyval)) :=
  match depth with
  | O => Diverge
  | S depth' =>
      match introspect bus path with
      | None => Raise DBusException
      | Some children =>
          walk_children (_walk_tree depth' bus self p)
                        (λ cp, _get_properties bus self cp p)
                        path children []
      end
  end.

(** [discover_endpoints(self)] *)
Definition discover_endpoints (depth : nat) (bus : dbus) (self : nat)
    (p : process) : res (list (gmap string pyval)) :=
  match ctl_objs p !! self ≫= _dbus_root with
  | Some root => _walk_tree depth bus self p root
  | None => Raise AttributeError
  end.

End Walker.

(* ===================================================================== *)
(** * MctpBusController: construction and close                           *)
(* ===================================================================== *)

Module BusController.
Import Walker.

(** One poll of the stabilisation loop: what D-Bus answers during the walk,
    a bound on the depth of the tree, and the time the walk takes, in
    milliseconds. *)
Record poll : Type := mkPoll {
  bus : dbus;
  tree_depth : nat;
  duration : N
}.

(** What the system answers while a controller is constructed. *)
Record ctor_env : Type := mkCtorEnv {
  fs : Config.filesystem;
  (** [glob.glob(filespec)] *)
  glob : string → list string;
  (** the answers while the link of a device path is opened *)
  link_env : string → SerialLink.open_env;
  (** [systemctl is-active mctpd.service] returns 0 *)
  service_active : bool;
  (** the polls of the stabilisation loop, in order *)
  polls : nat → poll
}.

Definition msg_second_controller : string :=
  "Invalid attempt to create a second MctpBusController object".
Definition msg_no_patterns : string :=
  "No serial device search patterns are specified".
Definition msg_no_devices : string :=
  "No serial devices match search pattern(s)".
Definition msg_not_enough_eids : string :=
  "Not enough EIDs to support targeted interfaces".
Definition msg_not_stable : string :=
  "Endpoint discovery did not stabilize within 30 seconds.".

Definition systemctl (verb : string) : event :=
  Run ["sudo"; "systemctl"; verb; "mctpd.service"].

(** The [for link in self._serial_links: link.close()] of [close]. *)
Fixpoint close_links (links : list nat) (p : process) : process * res unit :=
  match links with
  | [] => (p, Ok tt)
  | link :: rest =>
      match SerialLink.close link p with
      | (p', Ok _) => close_links rest p'
      | (p', Raise e) => (p', Raise e)
      | (p', Diverge) => (p', Diverge)
      end
  end.

(** [close(self)] of the controller. *)
Definition close (self : nat) (p : process) : process * res unit :=
  match ctl_objs p !! self with
  | None => (p, Ok tt)
  | Some c =>
      (* close and remove all serial links *)
      match close_links (_serial_links c) p with
      | (p, Ok _) =>
          let p := set_ctl self (set_serial_links []) p in
          (* shut down the mctp service *)
          let p := call (systemctl "stop") p in
          let p := match _instance p with
                   | Some _ => with_instance None p
                   | None => p
                   end in
          (p, Ok tt)
      | (p, Raise e) => (p, Raise e)
      | (p, Diverge) => (p, Diverge)
      end
  end.

(** The timeout of the stabilisation loop and the argument of its
    [time.sleep], in milliseconds. *)
Definition timeout : Z := 30 * 1000.
Definition sleep_seconds : Z := 1.

(** The [while True] loop that waits for the enumeration to stabilise.
    [i] counts the polls made, [elapsed] is [time.time() - start_time]
    when the walk starts (only the walk and the sleep take time), and
    [fuel] bounds the number of iterations. *)
Fixpoint stabilize (fuel : nat) (polls : nat → poll) (self : nat)
    (i : nat) (elapsed : Z) (previous_count : Z) (p : process)
    : process * res unit :=
  match fuel with
  | O => (p, Diverge)
  | S fuel' =>
      let q := polls i in
      let p := call (Discover (default "" (ctl_objs p !! self ≫= _dbus_root))) p in
      match discover_endpoints (tree_depth q) (bus q) self p with
      | Ok endpoints =>
          let current_count := Z.of_nat (length endpoints) in
          let elapsed := elapsed + Z.of_N (duration q) in
          if decide (current_count = previous_count) then (p, Ok tt)
          else if decide (elapsed > timeout) then
            match close self p with
            | (p, Ok _) => (p, Raise (AssertionError msg_not_stable))
            | (p, Raise e) => (p, Raise e)
            | (p, Diverge) => (p, Diverge)
            end
          else
            let p := call (Sleep sleep_seconds) p in
            stabilize fuel' polls self (S i)
                      (elapsed + sleep_seconds * 1000) current_count p
      | Raise e => (p, Raise e)
      | Diverge => (p, Diverge)
      end
  end.






(** The calls of a loop that ends with its [k]-th poll: [k + 1] walks with
    one [time.sleep(1)] between any two of them. *)
Definition loop_calls (root : string) (k : nat) : list event :=
  Discover root :: mjoin (replicate k [Sleep sleep_seconds; Discover root]).


(** Two processes with the same links, the same calls made and the same
    singleton slot. *)
Definition same_links_and_calls (p q : process) : Prop :=
  link_objs q = link_objs p ∧ _assigned_links q = _assigned_links p
  ∧ _allocated_eids q = _allocated_eids p ∧ calls q = calls p
  ∧ _instance q = _instance p.

(** Iterations after which the loop has always ended: every iteration that
    goes on adds one second, and none goes on after thirty. *)
Definition enough_polls : nat := 32.

(** [file_list = list(set(file_list + glob.glob(filespec)))] for every
    [filespec]: the matches without repetition.  The order in which the set
    lists them, here that of first occurrence, only decides which device is
    opened first. *)
Definition match_devices (glob : string → list string) (args : list string)
    : list string :=
  foldl (λ file_list filespec, remove_dups (file_list ++ glob filespec)) [] args.

(** The [for file_path in file_list] that creates the serial devices. *)
Fixpoint open_links (env : ctor_env) (self : nat) (file_list : list string)
    (p : process) : process * res unit :=
  match file_list with
  | [] => (p, Ok tt)
  | file_path :: rest =>
      let eid_range := default [] (_eid_range <$> ctl_objs p !! self) in
      match SerialLink.__init__ (link_env env file_path) file_path eid_range p with
      | (p, Ok link) =>
          let p := set_ctl self
                     (λ c, set_serial_links (_serial_links c ++ [link]) c) p in
          open_links env self rest p
      | (p, Raise e) => (p, Raise e)
      | (p, Diverge) => (p, Diverge)
      end
  end.

(** [MctpBusController(config_file_path, *args)].  As for a link, the
    object exists from the first statement on, and its reference is
    returned only when the constructor completes. *)
Definition __init__ (env : ctor_env) (config_file_path : string)
    (args : list string) (p0 : process) : process * res nat :=
  let self := length (ctl_objs p0) in
  let p := with_ctl_objs (λ h, h ++ [mkController [] [] None]) p0 in
  if negb (bool_decide (_instance p = None))
  then (p, Raise (AssertionError msg_second_controller))
  else if negb (bool_decide (0 < length args)%nat)
  then (p, Raise (AssertionError msg_no_patterns))
  else
    let '(eid_range, printed) :=
      Config._configure_eid_range (fs env) [] config_file_path in
    let p := set_ctl self (set_eid_range eid_range) p in
    let p := foldl (λ p line, print line p) p printed in
    let file_list := match_devices (glob env) args in
    if negb (bool_decide (0 < length file_list)%nat)
    then (p, Raise (AssertionError msg_no_devices))
    else if negb (bool_decide (length file_list ≤ length eid_range)%nat)
    then (p, Raise (AssertionError msg_not_enough_eids))
    else
      (* create the serial devices *)
      match open_links env self file_list p with
      | (p, Ok _) =>
          (* start mctpd using system bus *)
          let p := call (systemctl "is-active") p in
          let p := if service_active env then call (systemctl "stop") p else p in
          let p := call (systemctl "start") p in
          (* connect to system bus *)
          let p := call SystemBus p in
          let p := set_ctl self (set_dbus_root (Some "/au/com/codeconstruct/mctp1")) p in
          (* wait for bus enumeration to stabilize *)
          match stabilize enough_polls (polls env) self 0 0 (-1) p with
          | (p, Ok _) => (with_instance (Some self) p, Ok self)
          | (p, Raise e) => (p, Raise e)
          | (p, Diverge) => (p, Diverge)
          end
      | (p, Raise e) => (p, Raise e)
      | (p, Diverge) => (p, Diverge)
      end.

(** A use of the class: controllers are constructed and closed in any
    order; the outcomes are listed with the newest first. *)
Inductive op : Type :=
| Construct (env : ctor_env) (config_file_path : string) (args : list string)
| CloseController (self : nat).

Definition step (s : process * list (res nat)) (o : op)
    : process * list (res nat) :=
  match o with
  | Construct env config_file_path args =>
      let '(p, r) := __init__ env config_file_path args s.1 in (p, r :: s.2)
  | CloseController self => ((close self s.1).1, s.2)
  end.

Definition run (ops : list op) (p : process) : process * list (res nat) :=
  foldl step (p, []) ops.

End BusController.

(* ===================================================================== *)
(** * MctpBusController: raw message transmission                         *)
(* ===================================================================== *)

Module Datagram.

Definition AF_MCTP : Z := 45.
Definition SOCK_DGRAM : Z := 2.

(** What the system answers while a message is sent. *)
Record socket_env : Type := mkSocketEnv {
  (** the byte order of the machine, used by [struct.pack] in native mode *)
  little_endian : bool;
  (** [socket.socket(AF_MCTP, SOCK_DGRAM, 0)] returns a socket *)
  socket_ok : bool;
  (** [sock.sendto(payload, sockaddr)] returns *)
  sendto_ok : list Z → list Z → bool
}.

(** Format [H]: an unsigned short, two bytes. *)
Definition pack_H (le : bool) (v : Z) : res (list Z) :=
  if bool_decide (0 ≤ v ≤ 65535)
  then Ok (if le then [v `mod` 256; v `div` 256] else [v `div` 256; v `mod` 256])
  else Raise StructError.

(** Format [B]: an unsigned char. *)
Definition pack_B (v : Z) : res (list Z) :=
  if bool_decide (0 ≤ v ≤ 255) then Ok [v] else Raise StructError.

(** [struct.pack("HHBBBBB", h1, h2, b1, b2, b3, b4, b5)]: native sizes and
    alignment leave no padding between these fields. *)
Definition pack_HHBBBBB (le : bool) (h1 h2 b1 b2 b3 b4 b5 : Z) : res (list Z) :=
  x1 ← pack_H le h1; x2 ← pack_H le h2;
  y1 ← pack_B b1; y2 ← pack_B b2; y3 ← pack_B b3; y4 ← pack_B b4;
  y5 ← pack_B b5;
  mret (x1 ++ x2 ++ y1 ++ y2 ++ y3 ++ y4 ++ y5).


(** The address record built by [send_mctp_datagram]. *)
Definition datagram_sockaddr (le : bool)
    (network_id destination_eid message_type tag_owner : Z) : res (list Z) :=
  pack_HHBBBBB le
    AF_MCTP
    network_id
    0                (* Addr type *)
    0                (* Reserved *)
    destination_eid
    tag_owner
    message_type.


(** [send_mctp_datagram(self, network_id, destination_eid, message_type,
    tag_owner, payload)] *)
Definition send_mctp_datagram (env : socket_env)
    (network_id destination_eid message_type tag_owner : Z)
    (payload : list Z) (p : process) : process * bool :=
  let failed (e : exn) (p : process) :=
    (print ("Error sending MCTP datagram: " +:+ str_exn e) p, false) in
  let p := call (Socket AF_MCTP SOCK_DGRAM 0) p in
  if negb (socket_ok env) then failed OSError p
  else
    match datagram_sockaddr (little_endian env) network_id destination_eid
            message_type tag_owner with
    | Ok sockaddr =>
        let p := call (SendTo payload sockaddr) p in
        if negb (sendto_ok env payload sockaddr) then failed OSError p
        else
          let p := call SocketClose p in
          (p, true)
    | Raise e => failed e p
    | Diverge => (p, false)
    end.


End Datagram.

(* ===================================================================== *)
(** * A machine to run the model on                                       *)
(* ===================================================================== *)

Module Example.
Import Walker BusController.

Definition newline : string := String (ascii_of_nat 10) "".

(** [/etc/mctpd.conf] with the range written high to low, and a second
    declaration that is never read. *)
Definition mctpd_conf : list string :=
  ["# sample configuration" +:+ newline;
   "mode = bus-owner" +:+ newline;
   Config.declaration Config.usual 254 8;
   "dynamic_eid_range = [1, 2]" +:+ newline].

(** Three files that do not configure a range: no declaration, a
    declaration without brackets, a declaration with a bound of zero. *)
Definition conf_absent : list string :=
  ["mode = bus-owner" +:+ newline].
Definition conf_malformed : list string :=
  ["dynamic_eid_range = (8, 254)" +:+ newline].
Definition conf_zero : list string :=
  ["dynamic_eid_range = [0, 254]" +:+ newline].

(** A range of one EID. *)
Definition conf_single : list string :=
  [Config.declaration Config.usual 8 8].

Definition one_file (path : string) (lines : list string)
    : Config.filesystem :=
  λ f, if decide (f = path) then Some lines else None.

(** The [mctp] tool and the kernel do what they are asked: the device
    exists and the interface [ifname] shows up at the second poll. *)
Definition env_ok (ifname : string) (pid : Z) : SerialLink.open_env :=
  SerialLink.mkOpenEnv 0 true ["lo"; "eth0"] pid
    [["lo"; "eth0"]; ["lo"; "eth0"; ifname]] 0 0.

(** The device path does not exist. *)
Definition env_no_path : SerialLink.open_env :=
  SerialLink.mkOpenEnv 0 false ["lo"; "eth0"] 4242 [] 0 0.

Definition root : string := "/au/com/codeconstruct/mctp1".
Definition endpoints_path : string := root +:+ "/networks/1/endpoints".

(** The object tree of [mctpd] with one network and the endpoints [eids]
    on it. *)
Definition bus_with (eids : list Z) : dbus :=
  mkDbus
    (λ path,
       if decide (path = root) then Some ["networks"]
       else if decide (path = root +:+ "/networks") then Some ["1"]
       else if decide (path = root +:+ "/networks/1") then Some ["endpoints"]
       else if decide (path = endpoints_path) then Some (str_int <$> eids)
       else Some [])
    (λ path,
       eid ← list_find (λ e, path = endpoints_path +:+ "/" +:+ str_int e) eids;
       Some (eid.2, 1)).

(** A walk of ten milliseconds that finds [eids]. *)
Definition steady (eids : list Z) : poll := mkPoll (bus_with eids) 8 10.

Definition serial_env (device_path : string) : SerialLink.open_env :=
  if decide (device_path = "/dev/ttyUSB0") then env_ok "mctpserial0" 4240
  else if decide (device_path = "/dev/ttyUSB1") then env_ok "mctpserial1" 4241
  else env_ok "mctpserial2" 4242.

(** The machine: the configuration file [conf], two USB serial devices and
    one ACM device, a daemon that is not running, and a bus on which the
    endpoints [eids] answer from the first poll on. *)
Definition machine (conf : list string) (eids : list Z) : ctor_env :=
  mkCtorEnv
    (one_file "/etc/mctpd.conf" conf)
    (λ filespec,
       if decide (filespec = "/dev/ttyUSB?")
       then ["/dev/ttyUSB0"; "/dev/ttyUSB1"]
       else if decide (filespec = "/dev/ttyACM?") then ["/dev/ttyACM0"]
       else [])
    serial_env
    false
    (λ _, steady eids).

(** A controller is built, closed, and built again; the first one is
    closed once more, and a third one is built for another device. *)
Definition stale_close : list op :=
  [Construct (machine mctpd_conf [8; 9]) "/etc/mctpd.conf" ["/dev/ttyUSB?"];
   CloseController 0;
   Construct (machine mctpd_conf [8; 9]) "/etc/mctpd.conf" ["/dev/ttyUSB?"];
   CloseController 0;
   Construct (machine mctpd_conf [8; 9; 10]) "/etc/mctpd.conf" ["/dev/ttyACM?"]].



(** The process after one controller has been built for the two USB
    devices, and what that controller discovers when a third endpoint,
    which is not behind one of its links, has joined the bus. *)
Definition provisioned : process :=
  (__init__ (machine mctpd_conf [8; 9]) "/etc/mctpd.conf" ["/dev/ttyUSB?"]
     start).1.
Definition discovered : list (gmap string pyval) :=
  match discover_endpoints 8 (bus_with [8; 9; 10]) 0 provisioned with
  | Ok endpoints => endpoints
  | _ => []
  end.
Definition first_discovered : gmap string pyval := default ∅ (discovered !! 0%nat).
Definition last_discovered : gmap string pyval := default ∅ (discovered !! 2%nat).

End Example.

(* ===================================================================== *)
(** * MctpSerialLink._get_interfaces: reading the output of [ip]           *)
(* ===================================================================== *)

Module Interfaces.
Import Regex.

(** [s.split(':')] with the field being read in [field]: every colon ends
    a field, and the last field ends with the string, so the result is
    never empty. *)
Fixpoint split_acc (field : string) (s : string) : list string :=
  match s with
  | EmptyString => [field]
  | String c s' =>
      if decide (c = ":"%char) then field :: split_acc EmptyString s'
      else split_acc (field +:+ String c EmptyString) s'
  end.
Definition split_colon (s : string) : list string := split_acc EmptyString s.

(** [s.lstrip()], [s.rstrip()] and [s.strip()]: white space is what
    [str.isspace] says, which on code points below 256 is the class of the
    pattern. *)
Definition lstrip (s : string) : string := skip_spaces s.
Definition rstrip (s : string) : string :=
  String.rev (skip_spaces (String.rev s)).
Definition strip (s : string) : string := rstrip (lstrip s).

(** [name = line.split(':')[1].strip()]; nothing stands for the
    [IndexError] of a line without a colon. *)
Definition interface_name (line : string) : option string :=
  strip <$> split_colon line !! 1%nat.

(** The [for line in result.stdout.splitlines()] loop of [_get_interfaces],
    given the lines: the set of names, listed without repetition in the
    order of the lines, or nothing when a line raises. *)
Fixpoint collect_names (lines : list string) (interfaces : list string)
    : option (list string) :=
  match lines with
  | [] => Some interfaces
  | line :: rest =>
      name ← interface_name line;
      collect_names rest
        (if bool_decide (name ∈ interfaces) then interfaces
         else interfaces ++ [name])
  end.
Definition _get_interfaces (stdout_lines : list string)
    : option (list string) :=
  collect_names stdout_lines [].

(** A line as [ip -o link show] prints it: the index, the name with the
    blanks around it, and the rest. *)
Definition ip_line (index name rest : string) : string :=
  index +:+ ": " +:+ name +:+ ":" +:+ rest.

(** No character of [s] is a colon. *)
Definition no_colon (s : string) : bool :=
  all_chars (λ c, negb (bool_decide (c = ":"%char))) s.

(** [s] neither starts nor ends with white space. *)
Definition trimmed (s : string) : Prop :=
  stops is_space s ∧ stops is_space (String.rev s).

End Interfaces.

(* ===================================================================== *)
(** * More buses to walk                                                  *)
(* ===================================================================== *)

Module Cases.
Import Regex Walker BusController.


(** The bus [b] with an object below every endpoint, and with endpoint
    properties on every node that is not an endpoint. *)
Definition with_subnodes (b : dbus) : dbus :=
  mkDbus
    (λ path, if contains path "/endpoints/" then Some ["inventory"]
             else introspect b path)
    (λ path, if contains path "/endpoints/" then endpoint_props b path
             else Some (0, 0)).

(** The record of an endpoint that is behind no link. *)
Definition record_of (path : string) (eid network_id : Z)
    : gmap string pyval :=
  <["path" := PStr path]>
    (<["network_id" := PInt network_id]> {["eid" := PInt eid]}).




(** The machine of the examples on a bus whose number of endpoints goes up
    with every poll, each poll taking two seconds. *)
Definition growing_bus : ctor_env :=
  mkCtorEnv
    (Example.one_file "/etc/mctpd.conf" Example.mctpd_conf)
    (glob (Example.machine Example.mctpd_conf []))
    Example.serial_env
    true
    (λ i, mkPoll (Example.bus_with (seqZ 8 (Z.of_nat i))) 8 2000).

End Cases.

(* ===================================================================== *)
(** * The calls of a construction                                         *)
(* ===================================================================== *)

Module Provisioning.
Import BusController.

(** The three calls that bind a device, bring its interface up and give it
    its address, read off the attributes of the link they made. *)
Definition provisioning_calls (l : MctpSerialLink) : list event :=
  match _device_path l, _link_pid l, _link_name l, _eid l with
  | Some device_path, Some pid, Some link_name, Some eid =>
      [Popen ["sudo"; "mctp"; "link"; "serial"; device_path] pid;
       Run ["sudo"; "mctp"; "link"; "set"; link_name; "up"];
       Run ["sudo"; "mctp"; "address"; "add"; str_int eid; "dev"; link_name]]
  | _, _, _, _ => []
  end.

(** A call to the [mctp] tool. *)
Definition mctp_call (e : event) : Prop :=
  match e with
  | Popen ("sudo" :: "mctp" :: _) _ | Run ("sudo" :: "mctp" :: _) => True
  | _ => False
  end.

(** The calls between the last link and the first walk: the daemon is
    stopped if it is active, started, and the bus is connected. *)
Definition restart_calls (active : bool) : list event :=
  systemctl "is-active"
  :: (if active then [systemctl "stop"] else [])
  ++ [systemctl "start"; SystemBus].

(** A call of the stabilisation loop. *)
Definition loop_call (e : event) : Prop :=
  match e with Discover _ | Sleep _ => True | _ => False end.

(** [q] is [p] after some more calls, all of the kind [ok], and nothing
    else. *)
Definition after_calls (ok : event → Prop) (p q : process) : Prop :=
  link_objs q = link_objs p ∧ _assigned_links q = _assigned_links p
  ∧ _allocated_eids q = _allocated_eids p ∧ ctl_objs q = ctl_objs p
  ∧ _instance q = _instance p ∧ stdout q = stdout p
  ∧ ∃ evs, calls q = calls p ++ evs ∧ Forall ok evs.

End Provisioning.

(* ===================================================================== *)
(** * Facts about lists                                                   *)
(* ===================================================================== *)

Section List_facts.
Context {A : Type} `{EqDecision A}.

Lemma alter_last (f : A → A) (h : list A) (x : A) :
  alter f (length h) (h ++ [x]) = h ++ [f x].
Proof.
  induction h as [|y h IH]; simpl; [done|]. by f_equal.
Qed.


Lemma list_remove_in (x : A) (l : list A) :
  x ∈ l → ∃ r, list_remove x l = Ok r.
Proof.
  induction l as [|y l IH]; intros Hin; [by apply elem_of_nil in Hin|].
  simpl. destruct (decide (x = y)) as [->|Hne]; [eauto|].
  apply elem_of_cons in Hin as [?|Hin]; [done|].
  destruct (IH Hin) as [r ->]. eauto.
Qed.

(** [remove] takes out one occurrence, which is the only one when the list
    has no repetition. *)
Lemma list_remove_spec (x : A) (l r : list A) :
  list_remove x l = Ok r →
  r ⊆ l ∧ (∀ y, y ≠ x → y ∈ l → y ∈ r) ∧ (NoDup l → NoDup r ∧ x ∉ r).
Proof.
  revert r. induction l as [|y l IH]; intros r; simpl; [done|].
  destruct (decide (x = y)) as [->|Hne].
  - intros [= <-]. split; [by apply list_subseteq_cons|].
    split.
    + intros z Hz [->|Hin]%elem_of_cons; done.
    + intros Hnd. apply NoDup_cons in Hnd. tauto.
  - destruct (list_remove x l) as [r'| |] eqn:Hr; try done.
    intros [= <-]. destruct (IH r' eq_refl) as (Hsub & Hkeep & Hnd).
    split; [|split].
    + intros z [->|Hin]%elem_of_cons; [by left|]. right. by apply Hsub.
    + intros z Hz [->|Hin]%elem_of_cons; [by left|]. right. by apply Hkeep.
    + intros Hl. apply NoDup_cons in Hl as [Hy Hl].
      destruct (Hnd Hl) as [Hnd' Hx]. split.
      * apply NoDup_cons. split; [|done]. intros Hin. by apply Hy, Hsub.
      * intros [->|Hin]%elem_of_cons; done.
Qed.

(** A removal behind its membership test always returns. *)
Lemma remove_if_in_spec (x : A) (l : list A) :
  ∃ r, SerialLink.remove_if_in x l = Ok r
       ∧ r ⊆ l ∧ (∀ y, y ≠ x → y ∈ l → y ∈ r)
       ∧ (NoDup l → NoDup r ∧ x ∉ r) ∧ (x ∉ l → r = l).
Proof.
  unfold SerialLink.remove_if_in, list_in. case_bool_decide as Hin.
  - destruct (list_remove_in x l Hin) as [r Hr]. exists r.
    destruct (list_remove_spec x l r Hr) as (? & ? & ?).
    split; [done|]. split; [done|]. split; [done|]. split; [done|].
    by intros ?.
  - exists l. split; [done|]. split; [done|]. split; [done|]. split; [|done].
    by intros ?.
Qed.

End List_facts.

(* ===================================================================== *)
(** * The EID pool and the life of a serial link                          *)
(* ===================================================================== *)

Section SerialLink_facts.
Import SerialLink.

Lemma remaining_eids_elem env allowed allocated e :
  e ∈ remaining_eids env allowed allocated ↔ e ∈ allowed ∧ e ∉ allocated.
Proof.
  unfold remaining_eids.
  by rewrite elem_of_rotate, list_elem_of_difference, elem_of_remove_dups.
Qed.

Lemma remaining_eids_nil env allowed allocated :
  remaining_eids env allowed allocated = [] ↔ allowed ⊆ allocated.
Proof.
  split.
  - intros Hnil e He. destruct (decide (e ∈ allocated)) as [|Hn]; [done|].
    assert (e ∈ remaining_eids env allowed allocated) as Hin
      by by apply remaining_eids_elem.
    rewrite Hnil in Hin. by apply elem_of_nil in Hin.
  - intros Hsub. destruct (remaining_eids _ _ _) as [|e r] eqn:Hr; [done|].
    assert (e ∈ remaining_eids env allowed allocated) as Hin
      by (rewrite Hr; apply elem_of_cons; by left).
    apply remaining_eids_elem in Hin as [Hin Hout]. by apply Hsub in Hin.
Qed.

(** Closes one branch of the constructor: the object it leaves behind is
    the new one, with [v] as its EID. *)
Ltac link_shape v :=
  cbn [fst snd]; split;
  [ eapply (opened_intro _ _ _ (mkLink v _ _ _)); [done| |done..];
    cbn [link_objs set_link with_link_objs call with_assigned_links
         with_allocated_eids];
    rewrite ?alter_last; reflexivity
  | done ].

(** The constructor either returns the new object, holding an EID that was
    a candidate and was free, or raises and allocates nothing. *)
Lemma init_spec env device_path allowed_eids p0 :
  let out := __init__ env device_path allowed_eids p0 in
  let self := length (link_objs p0) in
  match out.2 with
  | Ok r =>
      (r = self) ∧
      (∃ e, opened p0 (out.1) self (Some e)
            ∧ e ∈ allowed_eids ∧ (e ∉ _allocated_eids p0)
            ∧ _allocated_eids (out.1) = _allocated_eids p0 ++ [e]
            ∧ _assigned_links (out.1) = _assigned_links p0 ++ [self])
  | _ =>
      opened p0 (out.1) self None
      ∧ _allocated_eids (out.1) = _allocated_eids p0
      ∧ _assigned_links (out.1) = _assigned_links p0
  end.
Proof.
  intros out self. subst out self. unfold __init__.
  destruct (remaining_eids env allowed_eids _) as [|next_eid rest] eqn:Hrem;
    cbn [_allocated_eids with_link_objs] in Hrem; [link_shape (@None Z)|].
  assert (next_eid ∈ allowed_eids ∧ next_eid ∉ _allocated_eids p0) as [Hin Hout].
  { apply (remaining_eids_elem env). rewrite Hrem. apply elem_of_cons. by left. }
  destruct (path_exists env); cbn [negb]; [|link_shape (@None Z)].
  destruct (_wait_for_new_interface _ _) as [link_name|];
    [|link_shape (@None Z)].
  case_bool_decide; [link_shape (@None Z)|].
  case_bool_decide; [link_shape (@None Z)|].
  cbn [fst snd]. split; [done|]. exists next_eid. link_shape (Some next_eid).
Qed.

Lemma opened_get_eid p0 p self v a :
  opened p0 p self v →
  get_eid a p = if decide (a = self) then v else get_eid a p0.
Proof.
  intros [l -> Hobjs _ _]. unfold get_eid. rewrite Hobjs.
  destruct (decide (a = length (link_objs p0))) as [->|Hne].
  - by rewrite list_lookup_middle.
  - destruct (decide (a < length (link_objs p0))%nat).
    + by rewrite lookup_app_l.
    + rewrite !lookup_ge_None_2; [done|lia|].
      rewrite length_app. simpl. lia.
Qed.

Lemma opened_fresh p0 p self v e :
  opened p0 p self v → ¬ holds p0 self e.
Proof.
  intros [l -> _ _ _]. unfold holds, get_eid.
  by rewrite lookup_ge_None_2.
Qed.

Lemma opened_length p0 p self v :
  opened p0 p self v → length (link_objs p) = S (length (link_objs p0)).
Proof. intros [l _ -> _ _]. rewrite length_app. simpl. lia. Qed.

Lemma inv_start : pool_inv start.
Proof.
  split; simpl; try apply NoDup_nil_2; try (intros ? H; by apply elem_of_nil in H).
  all: unfold holds, get_eid; simpl; intros; done.
Qed.

(** A constructor that raises keeps the invariant: only a blank object is
    added. *)
Lemma inv_opened_none p q :
  pool_inv p →
  opened p q (length (link_objs p)) None →
  _allocated_eids q = _allocated_eids p →
  _assigned_links q = _assigned_links p →
  pool_inv q.
Proof.
  intros [Hnd Hlnd Hlb Hheld Hown Huniq] Hop Heids Hlinks.
  pose proof (opened_length _ _ _ _ Hop) as Hlen.
  assert (∀ a e, holds q a e ↔ holds p a e) as Hsame.
  { intros a e. unfold holds. rewrite (opened_get_eid _ _ _ _ a Hop).
    case_decide as Ha; [|done]. subst a. split; [done|].
    intros Hp. by apply (opened_fresh _ _ _ _ e) in Hop. }
  split; rewrite ?Heids, ?Hlinks; try done.
  - intros a Ha. apply Hlb in Ha. lia.
  - intros a e Ha. apply (Hheld a). by apply Hsame.
  - intros e He. destruct (Hown e He) as [a Ha]. exists a. by apply Hsame.
  - intros a b e Ha Hb. apply Hsame in Ha, Hb. eauto.
Qed.

Lemma inv_init env device_path allowed_eids p :
  pool_inv p → pool_inv (__init__ env device_path allowed_eids p).1.
Proof.
  intros Hinv.
  pose proof (init_spec env device_path allowed_eids p) as Hspec.
  cbn zeta in Hspec.
  destruct (__init__ env device_path allowed_eids p) as [q r].
  cbn [fst snd] in *.
  destruct r as [r|e|];
    [|destruct Hspec as (Hop & Heids & Hlinks); by eapply inv_opened_none..].
  destruct Hinv as [Hnd Hlnd Hlb Hheld Hown Huniq].
  destruct Hspec as (-> & e & Hop & Hin & Hout & Heids & Hlinks).
  pose proof (opened_length _ _ _ _ Hop) as Hlen.
  assert (∀ a e', holds q a e' →
            (a = length (link_objs p) ∧ e' = e)
            ∨ (a ≠ length (link_objs p) ∧ holds p a e')) as Hcases.
  { intros a e' Ha. unfold holds in *.
    rewrite (opened_get_eid _ _ _ _ a Hop) in Ha.
    case_decide; [left|right]; [|done]. split; [done|congruence]. }
  assert (∀ a e', holds p a e' → holds q a e') as Hkeep.
  { intros a e' Ha. unfold holds.
    rewrite (opened_get_eid _ _ _ _ a Hop). case_decide as Heq; [|done].
    subst a. by apply (opened_fresh _ _ _ _ e') in Hop. }
  split; rewrite ?Heids, ?Hlinks.
  - apply NoDup_app. split; [done|]. split; [|apply NoDup_singleton].
    intros x Hx Hx'. apply list_elem_of_singleton in Hx'. by subst.
  - apply NoDup_app. split; [done|]. split; [|apply NoDup_singleton].
    intros x Hx Hx'. apply list_elem_of_singleton in Hx'. subst.
    apply Hlb in Hx. lia.
  - intros a Ha. apply elem_of_app in Ha as [Ha|Ha].
    + apply Hlb in Ha. lia.
    + apply list_elem_of_singleton in Ha. lia.
  - intros a e' Ha. apply elem_of_app.
    destruct (Hcases a e' Ha) as [[_ ->]|[_ Ha']].
    + right. by apply list_elem_of_singleton.
    + left. eauto.
  - intros e' He'. apply elem_of_app in He' as [He'|He'].
    + destruct (Hown e' He') as [a Ha]. exists a. eauto.
    + apply list_elem_of_singleton in He' as ->.
      exists (length (link_objs p)). unfold holds.
      rewrite (opened_get_eid _ _ _ _ _ Hop). by rewrite decide_True.
  - intros a b e' Ha Hb.
    destruct (Hcases a e' Ha) as [[-> Hea]|[Hna Ha']];
      destruct (Hcases b e' Hb) as [[-> Heb]|[Hnb Hb']];
      simplify_eq; eauto.
    + exfalso. apply Hout. exact (Hheld _ _ Hb').
    + exfalso. apply Hout. exact (Hheld _ _ Ha').
Qed.

Lemma close_dangling self p :
  link_objs p !! self = None → close self p = (p, Ok tt).
Proof. unfold close. by intros ->. Qed.

(** What [close] leaves behind. *)
Lemma close_spec self p l :
  link_objs p !! self = Some l →
  let q := (close self p).1 in
  (close self p).2 = Ok tt
  ∧ link_objs q = <[self := blank_link]> (link_objs p)
  ∧ remove_if_in self (_assigned_links p) = Ok (_assigned_links q)
  ∧ match _eid l with
    | Some e => remove_if_in e (_allocated_eids p) = Ok (_allocated_eids q)
    | None => _allocated_eids q = _allocated_eids p
    end
  ∧ calls q = calls p ++ match _link_pid l with
                         | Some pid => [Kill pid]
                         | None => []
                         end
  ∧ ctl_objs q = ctl_objs p ∧ _instance q = _instance p
  ∧ stdout q = stdout p.
Proof.
  intros Hl. unfold close. rewrite Hl.
  destruct (remove_if_in_spec self (_assigned_links p)) as (links & Hlinks & _).
  destruct (_link_pid l) as [pid|], (_eid l) as [e|] eqn:He;
    cbn [_assigned_links call]; rewrite Hlinks;
    cbn [_allocated_eids with_assigned_links call];
    try (destruct (remove_if_in_spec e (_allocated_eids p))
           as (eids & Heids & _); rewrite Heids);
    cbn; rewrite ?list_insert_alter, ?app_nil_r; done.
Qed.

(** [close] never raises, whatever the state of the link. *)
Lemma link_close_ok self p : (close self p).2 = Ok tt.
Proof.
  destruct (link_objs p !! self) as [l|] eqn:Hl.
  - by destruct (close_spec self p l Hl).
  - by rewrite close_dangling.
Qed.


Lemma get_eid_insert self l a p q :
  link_objs q = <[self := l]> (link_objs p) →
  (self < length (link_objs p))%nat →
  get_eid a q = if decide (a = self) then _eid l else get_eid a p.
Proof.
  intros Hq Hlt. unfold get_eid. rewrite Hq. case_decide as Ha.
  - subst. by rewrite list_lookup_insert_eq.
  - by rewrite list_lookup_insert_ne.
Qed.

Lemma inv_close self p : pool_inv p → pool_inv (close self p).1.
Proof.
  intros Hinv. destruct (link_objs p !! self) as [l|] eqn:Hl;
    [|by rewrite close_dangling].
  destruct (close_spec self p l Hl) as (_ & Hobjs & Hlinks & Heids & _).
  destruct Hinv as [Hnd Hlnd Hlb Hheld Hown Huniq].
  apply lookup_lt_Some in Hl as Hlt.
  set (q := (close self p).1) in *.
  assert (∀ a, get_eid a q = if decide (a = self) then None else get_eid a p)
    as Hget by (intros a; by apply (get_eid_insert self blank_link)).
  assert (∀ a e, holds q a e → a ≠ self ∧ holds p a e) as Hsub.
  { intros a e. unfold holds. rewrite Hget. by case_decide. }
  destruct (remove_if_in_spec self (_assigned_links p))
    as (links & Hlinks' & Hlsub & _ & Hlnd' & _).
  rewrite Hlinks in Hlinks'. injection Hlinks' as <-.
  assert (∃ eids, _allocated_eids q = eids ∧ eids ⊆ _allocated_eids p
            ∧ NoDup eids
            ∧ (∀ y, Some y ≠ _eid l → y ∈ _allocated_eids p → y ∈ eids)
            ∧ (∀ y, Some y = _eid l → y ∉ eids))
    as (eids & Heq & Hesub & Hend & Hekeep & Hegone).
  { destruct (_eid l) as [e|].
    - destruct (remove_if_in_spec e (_allocated_eids p))
        as (eids & Heids' & ? & Hk & Hn & _).
      rewrite Heids in Heids'. injection Heids' as <-.
      eexists; split; [done|]. split; [done|]. split; [by apply Hn|].
      split; [intros y Hy; apply Hk; congruence|].
      intros y [= ->]. by apply Hn.
    - exists (_allocated_eids p). rewrite Heids. by repeat split. }
  assert (get_eid self p = _eid l) as Hself by (unfold get_eid; by rewrite Hl).
  split.
  - by rewrite Heq.
  - by apply Hlnd'.
  - intros a Ha. rewrite Hobjs, length_insert. apply Hlb. by apply Hlsub.
  - intros a e Ha. apply Hsub in Ha as [Hne Ha]. rewrite Heq.
    apply Hekeep; [|by apply (Hheld a)].
    intros Hel. apply Hne. apply (Huniq _ _ e); [done|].
    unfold holds. by rewrite Hself.
  - intros e He. rewrite Heq in He.
    destruct (Hown e (Hesub _ He)) as [a Ha]. exists a.
    unfold holds. rewrite Hget. case_decide as Has; [|done].
    subst a. exfalso. apply (Hegone e); [|done].
    unfold holds in Ha. by rewrite <- Hself.
  - intros a b e Ha Hb. apply Hsub in Ha as [_ Ha]. apply Hsub in Hb as [_ Hb].
    eauto.
Qed.

Lemma inv_run ops p : pool_inv p → pool_inv (run ops p).
Proof.
  revert p. induction ops as [|o ops IH]; intros p Hp; [done|].
  apply IH. destruct o; [by apply inv_init|by apply inv_close].
Qed.

Lemma range_run eid_range ops p :
  Forall (draws_from eid_range) ops →
  _allocated_eids p ⊆ eid_range →
  _allocated_eids (run ops p) ⊆ eid_range.
Proof.
  intros Hops. revert p. induction Hops as [|o ops Ho Hops IH]; intros p Hp;
    [done|].
  apply IH. destruct o as [env device_path allowed_eids|self]; cbn [step].
  - pose proof (init_spec env device_path allowed_eids p) as Hspec.
    cbn zeta in Hspec.
    destruct (__init__ env device_path allowed_eids p) as [q [r|e|]];
      cbn [fst snd] in *.
    + destruct Hspec as (_ & e & _ & Hin & _ & -> & _).
      intros x Hx. apply elem_of_app in Hx as [Hx|Hx]; [by apply Hp|].
      apply list_elem_of_singleton in Hx as ->. by apply Ho.
    + destruct Hspec as (_ & -> & _). done.
    + destruct Hspec as (_ & -> & _). done.
  - destruct (link_objs p !! self) as [l|] eqn:Hl;
      [|by rewrite close_dangling].
    destruct (close_spec self p l Hl) as (_ & _ & _ & Heids & _).
    destruct (_eid l) as [e|]; [|by rewrite Heids].
    destruct (remove_if_in_spec e (_allocated_eids p)) as (eids & Heq & Hsub & _).
    rewrite Heids in Heq. injection Heq as <-.
    intros x Hx. apply Hp. by apply Hsub.
Qed.

(** C1.  However links are opened and closed, as long as every link draws
    its EID from candidates inside the configured range, the allocated
    EIDs are all inside that range, no two links hold the same EID, and
    the EID a link holds is an allocated one. *)
Theorem C1_eid_pool_invariant (eid_range : list Z) (ops : list op) :
  Forall (draws_from eid_range) ops →
  let p := run ops start in
  _allocated_eids p ⊆ eid_range
  ∧ (∀ a b e, holds p a e → holds p b e → a = b)
  ∧ (∀ a e, holds p a e → e ∈ _allocated_eids p).
Proof.
  intros Hops p. pose proof (inv_run ops start inv_start) as Hinv.
  split; [|split].
  - apply range_run; [done|]. intros x Hx. by apply elem_of_nil in Hx.
  - apply Hinv.
  - apply Hinv.
Qed.

(** Three links opened on the range [[8, 9]] with one closed in between:
    the third takes the EID the first gave back. *)
Lemma C1_eid_pool_witness :
  let ops := [Open (Example.env_ok "mctpserial0" 4240) "/dev/ttyUSB0" [8; 9];
              Open (Example.env_ok "mctpserial1" 4241) "/dev/ttyUSB1" [8; 9];
              Close 0;
              Open (Example.env_ok "mctpserial2" 4242) "/dev/ttyUSB2" [8; 9]] in
  Forall (draws_from [8; 9]) ops
  ∧ _allocated_eids (run ops start) = [9; 8]
  ∧ _allocated_eids (run ops start) ⊆ [8; 9].
Proof.
  intros ops.
  assert (Forall (draws_from [8; 9]) ops) as Hops
    by (repeat first [apply Forall_nil_2 | apply Forall_cons_2]; cbn; done).
  split; [exact Hops|]. split; [reflexivity|].
  exact (proj1 (C1_eid_pool_invariant [8; 9] ops Hops)).
Defined.



(** C7, as the code has it.  When the device path does not exist the
    constructor raises before any call is made and without allocating:
    the path error when some candidate EID is still free, and the
    exhaustion error when none is, because the EIDs are looked at first. *)
Theorem C7_missing_device_path (env : open_env) (device_path : string)
    (allowed_eids : list Z) (p : process) :
  path_exists env = false →
  let out := __init__ env device_path allowed_eids p in
  ((∃ e, e ∈ allowed_eids ∧ e ∉ _allocated_eids p) →
     out.2 = Raise (AssertionError (msg_path_not_found device_path)))
  ∧ (allowed_eids ⊆ _allocated_eids p →
     out.2 = Raise (AssertionError (msg_all_allocated device_path)))
  ∧ _allocated_eids (out.1) = _allocated_eids p
  ∧ calls (out.1) = calls p.
Proof.
  intros Hpath out. subst out. unfold __init__.
  cbn [_allocated_eids with_link_objs]. rewrite Hpath. cbn [negb].
  destruct (remaining_eids env allowed_eids (_allocated_eids p))
    as [|next_eid rest] eqn:Hrem; cbn [fst snd].
  - apply remaining_eids_nil in Hrem. split; [|done].
    intros (e & Hin & Hout). by apply Hrem in Hin.
  - split; [done|]. split; [|done]. intros Hsub.
    apply (remaining_eids_nil env) in Hsub. congruence.
Qed.

(** A path that does not exist, with EIDs 8 and 9 both free. *)
Lemma C7_missing_device_path_witness :
  path_exists Example.env_no_path = false
  ∧ (__init__ Example.env_no_path "/dev/ttyUSB7" [8; 9] start).2
    = Raise (AssertionError (msg_path_not_found "/dev/ttyUSB7")).
Proof.
  split; [reflexivity|].
  apply (C7_missing_device_path Example.env_no_path "/dev/ttyUSB7" [8; 9] start);
    [reflexivity|].
  exists 8. split; [by left|]. intros H. by apply elem_of_nil in H.
Defined.

(** C7 as stated fails: with 8 as the only candidate and 8 already held by
    a link, a device path that does not exist is answered with the
    exhaustion error, not with the path error. *)
Lemma C7_exhausted_pool_counterexample :
  path_exists Example.env_no_path = false
  ∧ (__init__ Example.env_no_path "/dev/ttyUSB7" [8]
       (run [Open (Example.env_ok "mctpserial0" 4240) "/dev/ttyUSB0" [8]] start)).2
    = Raise (AssertionError (msg_all_allocated "/dev/ttyUSB7"))
  ∧ (__init__ Example.env_no_path "/dev/ttyUSB7" [8]
       (run [Open (Example.env_ok "mctpserial0" 4240) "/dev/ttyUSB0" [8]] start)).2
    ≠ Raise (AssertionError (msg_path_not_found "/dev/ttyUSB7")).
Proof. by vm_compute. Qed.

End SerialLink_facts.

(* ===================================================================== *)
(** * The range declaration                                               *)
(* ===================================================================== *)

Section Regex_facts.
Import Regex.

Lemma digit_not_space c : is_digit c = true → is_space c = false.
Proof. by destruct c as [[] [] [] [] [] [] [] []]. Qed.

Lemma space_not_digit c : is_space c = true → is_digit c = false.
Proof. by destruct c as [[] [] [] [] [] [] [] []]. Qed.

Lemma skip_spaces_app ws r :
  all_chars is_space ws = true → skip_spaces (ws +:+ r) = skip_spaces r.
Proof.
  induction ws as [|c ws IH]; simpl; [done|].
  intros [Hc Hws]%andb_prop. rewrite Hc. by apply IH.
Qed.

Lemma skip_spaces_stops r : stops is_space r → skip_spaces r = r.
Proof. destruct r as [|c r]; simpl; [done|]. by intros ->. Qed.

Lemma take_digits_stops d r :
  all_chars is_digit d = true → stops is_digit r →
  take_digits (d +:+ r) = (d, r).
Proof.
  intros Hd Hr. induction d as [|x d IH]; simpl.
  - destruct r as [|c r]; simpl in *; [done|]. by rewrite Hr.
  - simpl in Hd. apply andb_prop in Hd as [Hx Hd]. rewrite Hx, (IH Hd). done.
Qed.

Lemma digits_stop_spaces d r :
  all_chars is_digit d = true → d ≠ EmptyString → stops is_space (d +:+ r).
Proof.
  destruct d as [|c d]; [done|]. simpl. intros [Hc _]%andb_prop _.
  by apply digit_not_space.
Qed.

Lemma blanks_stop_digits ws c r :
  all_chars is_space ws = true → is_digit c = false →
  stops is_digit (ws +:+ String c r).
Proof.
  destruct ws as [|x ws]; simpl; [done|]. intros [Hx _]%andb_prop _.
  by apply space_not_digit.
Qed.





(** The pattern matches a well laid out pair where it starts. *)
Lemma match_here_pair b1 b2 b3 b4 d1 d2 tail :
  all_chars is_space b1 = true → all_chars is_space b2 = true →
  all_chars is_space b3 = true → all_chars is_space b4 = true →
  all_chars is_digit d1 = true → d1 ≠ EmptyString →
  all_chars is_digit d2 = true → d2 ≠ EmptyString →
  match_here ("[" +:+ b1 +:+ d1 +:+ b2 +:+ "," +:+ b3 +:+ d2 +:+ b4 +:+ "]"
                +:+ tail)
  = Some (d1, d2).
Proof.
  intros H1 H2 H3 H4 Hd1 Hn1 Hd2 Hn2.
  change ("[" +:+ ?x) with (String "[" x).
  change ("," +:+ ?x) with (String "," x).
  change ("]" +:+ ?x) with (String "]" x).
  unfold match_here.
  rewrite (skip_spaces_app b1) by done.
  rewrite (skip_spaces_stops (d1 +:+ _)) by by apply digits_stop_spaces.
  rewrite take_digits_stops by (done || by apply blanks_stop_digits).
  rewrite decide_False by done.
  rewrite (skip_spaces_app b2) by done. rewrite skip_spaces_stops by done.
  rewrite (skip_spaces_app b3) by done.
  rewrite (skip_spaces_stops (d2 +:+ _)) by by apply digits_stop_spaces.
  rewrite take_digits_stops by (done || by apply blanks_stop_digits).
  rewrite decide_False by done.
  rewrite (skip_spaces_app b4) by done. by rewrite skip_spaces_stops.
Qed.



End Regex_facts.

Section Config_facts.
Import Regex Config.

Lemma startswith_app p x : startswith (p +:+ x) p = true.
Proof.
  unfold startswith. induction p as [|c p IH]; [by destruct x|].
  simpl. by destruct (ascii_dec c c).
Qed.


(** The first line that starts with the keyword decides. *)
Lemma scan_lines_first path before line after :
  Forall (λ l, startswith l "dynamic_eid_range" = false) before →
  scan_lines path (before ++ line :: after) = scan_lines path (line :: after).
Proof.
  induction 1 as [|l before Hl _ IH]; [done|]. simpl. by rewrite Hl.
Qed.


(** When the [try] block raises, the handler prints and the range stays as
    it was. *)
Lemma configure_swallows fs eid_range0 path e :
  try_body fs path = Raise e →
  _configure_eid_range fs eid_range0 path
  = (eid_range0, [handler_output path e]).
Proof. unfold _configure_eid_range. by intros ->. Qed.

End Config_facts.

(* ===================================================================== *)
(** * Discovery and the correlation with the local links                  *)
(* ===================================================================== *)

Section Walker_facts.
Import Walker.

(** The path of the endpoints node itself is walked into; the paths below
    it are endpoints. *)
Example endpoint_paths :
  child_path Example.root "networks" = Example.root +:+ "/networks"
  ∧ child_path "/" "au" = "/au"
  ∧ contains Example.endpoints_path "/endpoints/" = false
  ∧ contains (child_path Example.endpoints_path "8") "/endpoints/" = true.
Proof. by vm_compute. Qed.

Lemma first_link_with_Some p eid links link :
  first_link_with p eid links = Some link →
  link ∈ links ∧ SerialLink.holds p link eid.
Proof.
  induction links as [|l links IH]; simpl; [done|].
  case_decide as Hl.
  - intros [= <-]. split; [by left|done].
  - intros H. destruct (IH H). split; [by right|done].
Qed.

Lemma first_link_with_None p eid links :
  first_link_with p eid links = None ↔
  ∀ link, link ∈ links → ¬ SerialLink.holds p link eid.
Proof.
  induction links as [|l links IH]; simpl.
  - split; [|done]. intros _ link H. by apply elem_of_nil in H.
  - case_decide as Hl.
    + split; [done|]. intros H. exfalso. apply (H l); [by left|done].
    + rewrite IH. split.
      * intros H link [->|Hin]%elem_of_cons; [done|by apply H].
      * intros H link Hin. apply H. by right.
Qed.

Lemma get_properties_correlated bus self path p r :
  _get_properties bus self path p = Some r → correlated self p r.
Proof.
  unfold _get_properties.
  destruct (endpoint_props bus path) as [[eid network_id]|]; [|done].
  destruct (_get_link_from_eid self eid p) as [link|] eqn:Hlink;
    intros [= <-]; exists eid; rewrite Hlink.
  - apply first_link_with_Some in Hlink as [Hin Heid].
    split; [done|]. split; [done|]. split; [done|]. done.
  - split; [done|]. split; [|done]. by apply first_link_with_None.
Qed.

(** What holds of every record a walk appends holds of all it returns. *)
Lemma walk_children_all (P : gmap string pyval → Prop) walk get path
    children results found :
  (∀ cp r, get cp = Some r → P r) →
  (∀ cp rs, walk cp = Ok rs → Forall P rs) →
  Forall P results →
  walk_children walk get path children results = Ok found →
  Forall P found.
Proof.
  intros Hget Hwalk. revert results.
  induction children as [|child rest IH]; intros results Hres; simpl.
  - by intros [= <-].
  - destruct (contains _ _).
    + destruct (get _) as [props|] eqn:Hp; [|by apply IH].
      apply IH. apply Forall_app. split; [done|].
      apply Forall_singleton. by apply (Hget _ _ Hp).
    + destruct (walk _) as [sub| |] eqn:Hsub; [|done..].
      apply IH. apply Forall_app. split; [done|]. by apply (Hwalk _ _ Hsub).
Qed.

Lemma walk_tree_all depth bus self p path found :
  _walk_tree depth bus self p path = Ok found →
  Forall (correlated self p) found.
Proof.
  revert path found. induction depth as [|depth IH]; intros path found; [done|].
  simpl. destruct (introspect bus path) as [children|]; [|done].
  apply walk_children_all; [|done|done].
  intros cp r. apply get_properties_correlated.
Qed.

(** On a tree, that is, when every node that is walked into has a smaller
    rank than its parent, a walk that is given the rank of its root as
    depth returns or raises. *)
Lemma walk_tree_returns bus self p (rank : string → nat) :
  (∀ path children child,
     introspect bus path = Some children → child ∈ children →
     contains (child_path path child) "/endpoints/" = false →
     (rank (child_path path child) < rank path)%nat) →
  ∀ depth path, (rank path < depth)%nat →
    _walk_tree depth bus self p path ≠ Diverge.
Proof.
  intros Htree. induction depth as [|depth IH]; intros path Hrank; [lia|].
  simpl. destruct (introspect bus path) as [children|] eqn:Hch; [|done].
  assert (∀ child, child ∈ children →
            contains (child_path path child) "/endpoints/" = false →
            _walk_tree depth bus self p (child_path path child) ≠ Diverge)
    as Hsub.
  { intros child Hin Hno. apply IH.
    pose proof (Htree path children child Hch Hin Hno). lia. }
  clear Hch. generalize (@nil (gmap string pyval)).
  induction children as [|child rest IHc]; intros results; simpl; [done|].
  destruct (contains _ _) eqn:Hend.
  - destruct (_get_properties _ _ _ _); apply IHc;
      intros c Hc; apply Hsub; by right.
  - pose proof (Hsub child (ltac:(by left)) Hend) as Hchild.
    destruct (_walk_tree depth bus self p _); [|done..].
    apply IHc. intros c Hc. apply Hsub. by right.
Qed.

(** C9.  Every record that [discover_endpoints] returns carries the EID of
    its endpoint and: if some link of the controller holds that EID, the
    record has the interface name and the device path of a link of the
    controller that holds it, which is the link itself when no other link
    of the controller holds the same EID; if no link of the controller
    holds that EID, the two keys are absent. *)
Theorem C9_endpoint_correlation (depth : nat) (bus : dbus) (self : nat)
    (p : process) (endpoints : list (gmap string pyval))
    (r : gmap string pyval) :
  discover_endpoints depth bus self p = Ok endpoints →
  r ∈ endpoints →
  ∃ eid, r !! "eid" = Some (PInt eid)
    ∧ ((∃ link, link ∈ serial_links self p ∧ SerialLink.holds p link eid) →
       ∃ link, link ∈ serial_links self p ∧ SerialLink.holds p link eid
               ∧ link_fields_of p link r)
    ∧ (∀ link, link ∈ serial_links self p → SerialLink.holds p link eid →
         (∀ other, other ∈ serial_links self p →
                   SerialLink.holds p other eid → other = link) →
         link_fields_of p link r)
    ∧ ((∀ link, link ∈ serial_links self p → ¬ SerialLink.holds p link eid) →
       no_link_fields r).
Proof.
  unfold discover_endpoints.
  destruct (ctl_objs p !! self ≫= _dbus_root) as [root|]; [|done].
  intros Hwalk Hr. apply walk_tree_all in Hwalk.
  rewrite Forall_forall in Hwalk. destruct (Hwalk r Hr) as (eid & Heid & Hrec).
  exists eid. split; [done|].
  destruct (_get_link_from_eid self eid p) as [link|].
  - destruct Hrec as (Hin & Hholds & Hfields). split; [eauto|]. split.
    + intros link' Hin' Hholds' Hunique.
      by rewrite <- (Hunique link Hin Hholds).
    + intros Hnone. by destruct (Hnone link Hin).
  - destruct Hrec as (Hnone & Habsent). split; [|split; [|done]].
    + intros (link & Hin & Hholds). by destruct (Hnone link Hin).
    + intros link Hin Hholds. by destruct (Hnone link Hin).
Qed.

(** The controller of the two USB links discovers three endpoints; the
    first, with EID 8, is behind its link [mctpserial0]. *)
Lemma C9_endpoint_correlation_witness :
  discover_endpoints 8 (Example.bus_with [8; 9; 10]) 0 Example.provisioned
    = Ok Example.discovered
  ∧ Example.first_discovered ∈ Example.discovered
  ∧ Example.first_discovered !! "link_name" = Some (PStr "mctpserial0")
  ∧ ∃ eid, Example.first_discovered !! "eid" = Some (PInt eid)
      ∧ ((∃ link, link ∈ serial_links 0 Example.provisioned
                  ∧ SerialLink.holds Example.provisioned link eid) →
         ∃ link, link ∈ serial_links 0 Example.provisioned
                 ∧ SerialLink.holds Example.provisioned link eid
                 ∧ link_fields_of Example.provisioned link
                     Example.first_discovered).
Proof.
  assert (discover_endpoints 8 (Example.bus_with [8; 9; 10]) 0
            Example.provisioned = Ok Example.discovered) as Hwalk
    by (vm_compute; reflexivity).
  assert (Example.first_discovered ∈ Example.discovered) as Hin
    by (vm_compute; left).
  split; [exact Hwalk|]. split; [exact Hin|].
  split; [vm_compute; reflexivity|].
  destruct (C9_endpoint_correlation 8 (Example.bus_with [8; 9; 10]) 0
              Example.provisioned Example.discovered
              Example.first_discovered Hwalk Hin) as (eid & Heid & Hsome & _).
  exists eid. split; [exact Heid|exact Hsome].
Defined.

(** The third endpoint, with EID 10, is behind no link of the controller:
    its record has neither key. *)
Example uncorrelated_endpoint :
  Example.last_discovered !! "eid" = Some (PInt 10)
  ∧ no_link_fields Example.last_discovered.
Proof. by vm_compute. Qed.

End Walker_facts.

(* ===================================================================== *)
(** * Construction of the controller: the preconditions                   *)
(* ===================================================================== *)

Section Controller_facts.
Import Walker BusController.

Lemma close_links_ok links p : (close_links links p).2 = Ok tt.
Proof.
  revert p. induction links as [|l links IH]; intros p; [done|].
  simpl. pose proof (link_close_ok l p) as Hok.
  destruct (SerialLink.close l p) as [q r]. simpl in Hok. subst r. apply IH.
Qed.

(** [close] of the controller never raises. *)
Lemma controller_close_ok self p : (close self p).2 = Ok tt.
Proof.
  unfold close. destruct (ctl_objs p !! self) as [c|]; [|done].
  pose proof (close_links_ok (_serial_links c) p) as Hok.
  destruct (close_links (_serial_links c) p) as [q r]. simpl in Hok. by subst r.
Qed.

Lemma print_lines_same printed p :
  same_links_and_calls p (foldl (λ p line, print line p) p printed).
Proof.
  revert p. induction printed as [|line printed IH]; intros p; [done|].
  apply (IH (print line p)).
Qed.

(** Construction stops at the first of its four assertions that fails,
    before any link is opened and before any call is made. *)
Lemma init_precondition env config_file_path args p :
  let out := __init__ env config_file_path args p in
  let eid_range :=
    (Config._configure_eid_range (fs env) [] config_file_path).1 in
  let file_list := match_devices (glob env) args in
  (_instance p ≠ None ∨ args = [] ∨ file_list = []
   ∨ (length eid_range < length file_list)%nat) →
  same_links_and_calls p (out.1)
  ∧ out.2 = Raise (AssertionError
        (if bool_decide (_instance p ≠ None) then msg_second_controller
         else if bool_decide (args = []) then msg_no_patterns
         else if bool_decide (file_list = []) then msg_no_devices
         else msg_not_enough_eids)).
Proof.
  intros out eid_range file_list Hpre. subst out eid_range file_list.
  unfold __init__. cbn [_instance with_ctl_objs].
  destruct (_instance p) as [c|] eqn:Hinst.
  { rewrite bool_decide_eq_false_2 by done. cbn [negb fst snd].
    rewrite bool_decide_eq_true_2 by done. done. }
  rewrite bool_decide_eq_true_2 by done. cbn [negb].
  rewrite (bool_decide_eq_false_2 (None ≠ None)) by (by intros ?).
  destruct args as [|a args].
  { rewrite bool_decide_eq_false_2 by (cbn [length]; lia). cbn [negb fst snd].
    rewrite bool_decide_eq_true_2 by done. done. }
  rewrite bool_decide_eq_true_2 by (cbn [length]; lia). cbn [negb].
  rewrite (bool_decide_eq_false_2 (a :: args = [])) by done.
  destruct (Config._configure_eid_range (fs env) [] config_file_path)
    as [eid_range printed].
  cbn [fst snd] in *.
  set (files := match_devices (glob env) (a :: args)) in *.
  set (q := foldl _ _ printed).
  assert (same_links_and_calls p q) as Hq.
  { exact (print_lines_same printed
             (set_ctl (length (ctl_objs p)) (set_eid_range eid_range)
                (with_ctl_objs (λ h, h ++ [mkController [] [] None]) p))). }
  destruct files as [|f files'] eqn:Hfl.
  { rewrite bool_decide_eq_false_2 by (cbn [length]; lia). cbn [negb fst snd].
    rewrite bool_decide_eq_true_2 by done. done. }
  rewrite bool_decide_eq_true_2 by (cbn [length]; lia). cbn [negb].
  rewrite (bool_decide_eq_false_2 (f :: files' = [])) by done.
  destruct Hpre as [?|[?|[?|Hlt]]]; try done.
  rewrite bool_decide_eq_false_2 by lia. cbn [negb fst snd]. done.
Qed.


(** C5.  When more device paths match than the configured range has EIDs,
    construction raises; no call has been made (the daemon is neither
    stopped nor started and no device is bound) and no link object exists
    that was not there before.  The error is the one about the EIDs as
    soon as construction gets to the device paths at all, that is, when no
    controller exists already. *)
Theorem C5_insufficient_eids (env : ctor_env) (config_file_path : string)
    (args : list string) (p : process) :
  let eid_range :=
    (Config._configure_eid_range (fs env) [] config_file_path).1 in
  let file_list := match_devices (glob env) args in
  (length eid_range < length file_list)%nat →
  let out := __init__ env config_file_path args p in
  (_instance p = None →
     out.2 = Raise (AssertionError msg_not_enough_eids))
  ∧ is_ok (out.2) = false
  ∧ calls (out.1) = calls p
  ∧ link_objs (out.1) = link_objs p
  ∧ _allocated_eids (out.1) = _allocated_eids p.
Proof.
  intros eid_range file_list Hlt out.
  destruct (init_precondition env config_file_path args p)
    as [(Hobjs & _ & Heids & Hcalls & _) Hout]; [by repeat right|].
  fold out in Hobjs, Heids, Hcalls, Hout.
  split; [|by rewrite Hout].
  intros Hnone. rewrite Hout, Hnone.
  rewrite (bool_decide_eq_false_2 (None ≠ None)) by (by intros ?).
  assert (file_list ≠ []) as Hfl
    by (intros Hnil; rewrite Hnil in Hlt; cbn in Hlt; lia).
  assert (args ≠ []) as Hargs by (intros ->; by apply Hfl).
  by rewrite !bool_decide_eq_false_2.
Qed.

(** The machine of the examples with a range of one EID and two matching
    devices. *)
Lemma C5_insufficient_eids_witness :
  (__init__ (Example.machine Example.conf_single [8])
     "/etc/mctpd.conf" ["/dev/ttyUSB?"] start).2
    = Raise (AssertionError msg_not_enough_eids)
  ∧ calls (__init__ (Example.machine Example.conf_single [8])
             "/etc/mctpd.conf" ["/dev/ttyUSB?"] start).1 = [].
Proof.
  destruct (C5_insufficient_eids (Example.machine Example.conf_single [8])
              "/etc/mctpd.conf" ["/dev/ttyUSB?"] start)
    as (Herr & _ & Hcalls & _).
  - vm_compute. lia.
  - split; [by apply Herr|exact Hcalls].
Defined.

(** Whatever the [try] block of [_configure_eid_range] raises, what the
    caller of the constructor sees is one of the other four assertions. *)
Lemma config_error_is_replaced env config_file_path args p e :
  Config.try_body (fs env) config_file_path = Raise e →
  ∃ msg, (__init__ env config_file_path args p).2 = Raise (AssertionError msg)
         ∧ msg ∈ [msg_second_controller; msg_no_patterns; msg_no_devices;
                  msg_not_enough_eids].
Proof.
  intros Hraise.
  destruct (init_precondition env config_file_path args p) as [_ ->].
  - rewrite (configure_swallows _ _ _ _ Hraise). cbn [fst].
    destruct (match_devices (glob env) args); cbn; [tauto|]. right. right.
    right. lia.
  - eexists. split; [done|].
    repeat case_bool_decide; repeat first [by left | right].
Qed.

(** C3, the code at three configuration files without a usable range (no
    declaration, no brackets, a bound of zero) and two matching devices:
    the configuration error is printed and dropped, and what construction
    raises is the error about the number of EIDs. *)
Theorem C3_config_error_is_swallowed :
  let build conf :=
    __init__ (Example.machine conf [8; 9]) "/etc/mctpd.conf" ["/dev/ttyUSB?"]
      start in
  ((build Example.conf_absent).2 = Raise (AssertionError msg_not_enough_eids)
   ∧ stdout (build Example.conf_absent).1
     = ["Error when reading /etc/mctpd.conf: "
          +:+ Config.msg_not_found "/etc/mctpd.conf"])
  ∧ ((build Example.conf_malformed).2
       = Raise (AssertionError msg_not_enough_eids)
     ∧ stdout (build Example.conf_malformed).1
       = ["Error when reading /etc/mctpd.conf: "
            +:+ Config.msg_parse_error "/etc/mctpd.conf"])
  ∧ ((build Example.conf_zero).2 = Raise (AssertionError msg_not_enough_eids)
     ∧ stdout (build Example.conf_zero).1
       = ["Error when reading /etc/mctpd.conf: "
            +:+ Config.msg_invalid_values "/etc/mctpd.conf"]).
Proof. by vm_compute. Qed.



(* --------------------------------------------------------------------- *)
(** ** The stabilisation loop                                             *)
(* --------------------------------------------------------------------- *)















(* --------------------------------------------------------------------- *)
(** ** The singleton slot                                                 *)
(* --------------------------------------------------------------------- *)

(** While the slot is taken, construction fails at its first assertion. *)
Lemma second_construction_fails env config_file_path args p :
  _instance p ≠ None →
  (__init__ env config_file_path args p).2
    = Raise (AssertionError msg_second_controller)
  ∧ same_links_and_calls p (__init__ env config_file_path args p).1.
Proof.
  intros Htaken.
  destruct (init_precondition env config_file_path args p) as [Hsame ->];
    [by left|].
  by rewrite bool_decide_eq_true_2.
Qed.

(** A constructor that returns has found the slot empty and leaves its
    own object in it. *)
Lemma construction_takes_slot env config_file_path args p self :
  (__init__ env config_file_path args p).2 = Ok self →
  _instance p = None
  ∧ _instance (__init__ env config_file_path args p).1 = Some self.
Proof.
  unfold __init__. cbn [_instance with_ctl_objs].
  destruct (_instance p); [done|]. cbn [negb bool_decide].
  rewrite bool_decide_eq_true_2 by done. cbn [negb].
  case_bool_decide; cbn [negb]; [|done].
  destruct (Config._configure_eid_range _ _ _) as [eid_range printed].
  case_bool_decide; cbn [negb]; [|done].
  case_bool_decide; cbn [negb]; [|done].
  destruct (open_links _ _ _ _) as [q [[]|e|]]; [|done..].
  destruct (stabilize _ _ _ _ _ _ _) as [q' [[]|e|]]; [|done..].
  cbn [fst snd]. by intros [= <-].
Qed.

(** [close] empties the slot, whichever controller is in it. *)
Lemma close_clears_slot self p :
  is_Some (ctl_objs p !! self) → _instance (close self p).1 = None.
Proof.
  intros [c Hc]. unfold close. rewrite Hc.
  pose proof (close_links_ok (_serial_links c) p) as Hok.
  destruct (close_links (_serial_links c) p) as [q r]. simpl in Hok. subst r.
  cbn [_instance set_ctl with_ctl_objs call].
  destruct (_instance q) eqn:Hslot;
    cbn [fst _instance with_instance set_ctl with_ctl_objs call]; done.
Qed.

(** C6, the code on the run [Example.stale_close]: a first controller is
    built and closed, a second one is built, [close] is called again on
    the first, and a third construction returns while the second
    controller has never been closed.  At the end the second controller
    (object 1) and the third (object 2) both own links that hold EIDs and
    the slot names the third. *)
Theorem C6_two_controllers_after_stale_close :
  let '(p, results) := run Example.stale_close start in
  results = [Ok 2%nat; Ok 1%nat; Ok 0%nat]
  ∧ (CloseController 1 ∉ Example.stale_close)
  ∧ (CloseController 2 ∉ Example.stale_close)
  ∧ serial_links 1 p = [2%nat; 3%nat]
  ∧ SerialLink.holds p 2 8 ∧ SerialLink.holds p 3 9
  ∧ serial_links 2 p = [4%nat]
  ∧ SerialLink.holds p 4 10
  ∧ _instance p = Some 2%nat.
Proof.
  vm_compute. repeat split; try done.
  all: intros Hin; repeat (apply elem_of_cons in Hin as [?|Hin]; [done|]);
    by apply elem_of_nil in Hin.
Qed.

(** The whole construction on the machine of the examples: range 8 to 254,
    two matching devices, which get the EIDs 8 and 9; the daemon is
    started; two polls find two endpoints each; the controller is returned
    and takes the slot; and a discovery returns two records, each with the
    name of the link of its EID. *)
Example end_to_end :
  let out := __init__ (Example.machine Example.mctpd_conf [8; 9])
               "/etc/mctpd.conf" ["/dev/ttyUSB?"] start in
  out.2 = Ok 0%nat
  ∧ _instance (out.1) = Some 0%nat
  ∧ _allocated_eids (out.1) = [8; 9]
  ∧ drop 6 (calls (out.1))
    = [systemctl "is-active"; systemctl "start"; SystemBus;
       Discover Example.root; Sleep 1; Discover Example.root]
  ∧ match discover_endpoints 8 (Example.bus_with [8; 9]) 0 (out.1) with
    | Ok [first; second] =>
        first !! "link_name" = Some (PStr "mctpserial0")
        ∧ second !! "link_name" = Some (PStr "mctpserial1")
    | _ => False
    end.
Proof. by vm_compute. Qed.

End Controller_facts.

(* ===================================================================== *)
(** * Raw message transmission                                            *)
(* ===================================================================== *)

Section Datagram_facts.
Import Datagram.


End Datagram_facts.

(* ===================================================================== *)
(** * More about the serial link                                          *)
(* ===================================================================== *)

Import SerialLink.

(** X3.  [_wait_for_new_interface] returns a name that one of the polls
    lists and the snapshot does not, from the first poll that lists such a
    name; it returns nothing exactly when every poll lists only names of
    the snapshot. *)
Theorem X3_wait_for_new_interface (initial : list string)
    (polls : list (list string)) :
  match _wait_for_new_interface initial polls with
  | Some name =>
      (name ∉ initial)
      ∧ ∃ i current, polls !! i = Some current ∧ name ∈ current
          ∧ ∀ j earlier, (j < i)%nat → polls !! j = Some earlier →
                         earlier ⊆ initial
  | None => ∀ current, current ∈ polls → current ⊆ initial
  end.
Proof.
  induction polls as [|current later IH]; simpl.
  - intros current Hin. by apply elem_of_nil in Hin.
  - destruct (list_difference current initial) as [|name rest] eqn:Hdiff.
    + assert (current ⊆ initial) as Hsub.
      { intros x Hx. destruct (decide (x ∈ initial)) as [|Hno]; [done|].
        assert (x ∈ list_difference current initial) as Hin
          by by apply list_elem_of_difference.
        rewrite Hdiff in Hin. by apply elem_of_nil in Hin. }
      destruct (_wait_for_new_interface initial later) as [name|].
      * destruct IH as (Hnew & i & cur & Hi & Hin & Hearlier).
        split; [done|]. exists (S i), cur. split; [done|]. split; [done|].
        intros [|j] earlier Hj; simpl; [by intros [= <-]|].
        apply Hearlier. lia.
      * intros cur [->|Hin]%elem_of_cons; [done|by apply IH].
    + assert (name ∈ list_difference current initial) as Hin
        by (rewrite Hdiff; by left).
      apply list_elem_of_difference in Hin as [Hin Hnew].
      split; [done|]. exists 0%nat, current. split; [done|]. split; [done|].
      intros j earlier Hj. lia.
Qed.

Lemma wait_for_new_interface_new initial polls name :
  _wait_for_new_interface initial polls = Some name → name ∉ initial.
Proof.
  induction polls as [|current later IH]; simpl; [done|].
  destruct (list_difference current initial) as [|x rest] eqn:Hdiff; [done|].
  intros [= <-].
  assert (x ∈ list_difference current initial) as Hin
    by (rewrite Hdiff; by left).
  by apply list_elem_of_difference in Hin as [_ Hnew].
Qed.

(** What a constructor that returns has done. *)
Lemma open_ok_spec env device_path allowed_eids p self :
  (__init__ env device_path allowed_eids p).2 = Ok self →
  let q := (__init__ env device_path allowed_eids p).1 in
  self = length (link_objs p)
  ∧ ∃ eid link_name,
      link_objs q
        = link_objs p ++ [mkLink (Some eid) (Some (popen_pid env))
                                 (Some link_name) (Some device_path)]
      ∧ eid ∈ allowed_eids ∧ (eid ∉ _allocated_eids p)
      ∧ (link_name ∉ initial_interfaces env)
      ∧ _allocated_eids q = _allocated_eids p ++ [eid]
      ∧ _assigned_links q = _assigned_links p ++ [self]
      ∧ calls q
        = calls p
          ++ [Popen ["sudo"; "mctp"; "link"; "serial"; device_path]
                    (popen_pid env);
              Run ["sudo"; "mctp"; "link"; "set"; link_name; "up"];
              Run ["sudo"; "mctp"; "address"; "add"; str_int eid; "dev";
                   link_name]]
      ∧ ctl_objs q = ctl_objs p ∧ _instance q = _instance p
      ∧ stdout q = stdout p.
Proof.
  unfold __init__.
  destruct (remaining_eids env allowed_eids _) as [|next_eid rest] eqn:Hrem;
    cbn [_allocated_eids with_link_objs] in Hrem; [done|].
  assert (next_eid ∈ allowed_eids ∧ next_eid ∉ _allocated_eids p) as [Hin Hout].
  { apply (remaining_eids_elem env). rewrite Hrem. by left. }
  destruct (path_exists env); cbn [negb]; [|done].
  destruct (_wait_for_new_interface _ _) as [link_name|] eqn:Hwait; [|done].
  apply wait_for_new_interface_new in Hwait.
  case_bool_decide; [done|]. case_bool_decide; [done|].
  cbn [fst snd]. intros [= <-]. split; [done|].
  exists next_eid, link_name.
  cbn [link_objs _allocated_eids _assigned_links calls set_link with_link_objs
       call with_assigned_links with_allocated_eids].
  rewrite !alter_last. cbn. rewrite <- !app_assoc. done.
Qed.

(** What a constructor that raises has done: one object more, without an
    EID, and calls to the [mctp] tool only. *)
Lemma open_fail_spec env device_path allowed_eids p :
  let out := __init__ env device_path allowed_eids p in
  is_ok (out.2) = false →
  ∃ l evs,
    link_objs (out.1) = link_objs p ++ [l] ∧ _eid l = None
    ∧ _allocated_eids (out.1) = _allocated_eids p
    ∧ _assigned_links (out.1) = _assigned_links p
    ∧ calls (out.1) = calls p ++ evs
    ∧ Forall Provisioning.mctp_call evs
    ∧ ctl_objs (out.1) = ctl_objs p ∧ _instance (out.1) = _instance p
    ∧ stdout (out.1) = stdout p.
Proof.
  cbn zeta. unfold __init__.
  destruct (remaining_eids env allowed_eids _) as [|next_eid rest].
  { intros _. exists (mkLink None None None None), []. cbn.
    by rewrite app_nil_r. }
  destruct (path_exists env); cbn [negb].
  2:{ intros _. exists (mkLink None None None None), []. cbn.
      by rewrite app_nil_r. }
  destruct (_wait_for_new_interface _ _) as [link_name|];
    [repeat case_bool_decide|]; cbn [fst snd is_ok]; try done; intros _;
    cbn [link_objs calls set_link with_link_objs call _allocated_eids
         _assigned_links ctl_objs _instance stdout];
    rewrite !alter_last; cbn; eexists _, _;
    (split; [reflexivity|]); (split; [reflexivity|]);
    (split; [reflexivity|]); (split; [reflexivity|]);
    (split; [by rewrite <- ?app_assoc|]); (split; [|done]);
    by repeat constructor.
Qed.







(** X5.  [close] on one link leaves every other link alone: the other
    object keeps its attributes, it is registered after the call exactly
    if it was before, and, in a process where the pool invariant holds,
    the EID it holds stays allocated. *)
Theorem X5_close_leaves_others (p : process) (self other : nat) :
  other ≠ self →
  let q := (close self p).1 in
  link_objs q !! other = link_objs p !! other
  ∧ (other ∈ _assigned_links q ↔ other ∈ _assigned_links p)
  ∧ (pool_inv p → ∀ e, holds p other e →
       holds q other e ∧ e ∈ _allocated_eids q).
Proof.
  intros Hne q. subst q.
  destruct (link_objs p !! self) as [l|] eqn:Hl;
    [|rewrite close_dangling by done; cbn;
      split; [done|]; split; [done|];
      intros Hinv e Hholds; split; [done|]; by apply (inv_held _ Hinv other)].
  destruct (close_spec self p l Hl) as (_ & Hobjs & Hlinks & _).
  assert (link_objs (close self p).1 !! other = link_objs p !! other) as Hsame
    by (rewrite Hobjs; by apply list_lookup_insert_ne).
  split; [done|]. split.
  - destruct (remove_if_in_spec self (_assigned_links p))
      as (links & Hlinks' & Hsub & Hkeep & _).
    rewrite Hlinks in Hlinks'. injection Hlinks' as <-.
    split; [apply Hsub|by apply Hkeep].
  - intros Hinv e Hholds.
    assert (holds (close self p).1 other e) as Hq
      by (unfold holds, get_eid in *; by rewrite Hsame).
    split; [done|]. by apply (inv_held _ (inv_close self p Hinv) other).
Qed.

(** The second of two links is registered and still holds EID 9 after the
    first has been closed. *)
Lemma X5_close_leaves_others_witness :
  1%nat ∈ _assigned_links
            (close 0
               (run [Open (Example.env_ok "mctpserial0" 4240) "/dev/ttyUSB0" [8; 9];
                     Open (Example.env_ok "mctpserial1" 4241) "/dev/ttyUSB1" [8; 9]]
                  start)).1.
Proof.
  apply (X5_close_leaves_others
           (run [Open (Example.env_ok "mctpserial0" 4240) "/dev/ttyUSB0" [8; 9];
                 Open (Example.env_ok "mctpserial1" 4241) "/dev/ttyUSB1" [8; 9]]
              start) 0 1).
  - discriminate.
  - vm_compute. right. left.
Defined.

(** X6.  The pool never holds more EIDs than the configured range has
    distinct values, and when it holds that many, every further open that
    draws from the range fails with the exhaustion error before making any
    call. *)
Theorem X6_pool_capacity (eid_range : list Z) (ops : list op) :
  Forall (draws_from eid_range) ops →
  let p := run ops start in
  (length (_allocated_eids p) ≤ length (remove_dups eid_range))%nat
  ∧ (length (_allocated_eids p) = length (remove_dups eid_range) →
     ∀ env device_path allowed_eids, allowed_eids ⊆ eid_range →
       let out := __init__ env device_path allowed_eids p in
       out.2 = Raise (AssertionError (msg_all_allocated device_path))
       ∧ calls (out.1) = calls p).
Proof.
  intros Hops p.
  pose proof (inv_run ops start inv_start) as Hinv. fold p in Hinv.
  assert (_allocated_eids p ⊆ eid_range) as Hin.
  { apply range_run; [done|]. intros x Hx. by apply elem_of_nil in Hx. }
  assert (_allocated_eids p ⊆+ remove_dups eid_range) as Hsub.
  { apply NoDup_submseteq; [apply Hinv|].
    intros x Hx. apply elem_of_remove_dups. by apply Hin. }
  split; [by apply submseteq_length|].
  intros Hfull env device_path allowed_eids Hallowed out.
  assert (_allocated_eids p ≡ₚ remove_dups eid_range) as Hperm
    by (apply submseteq_length_Permutation; [done|lia]).
  assert (remaining_eids env allowed_eids (_allocated_eids p) = []) as Hnone.
  { apply remaining_eids_nil. intros x Hx. rewrite Hperm.
    apply elem_of_remove_dups. by apply Hallowed. }
  subst out. unfold __init__. cbn [_allocated_eids with_link_objs].
  by rewrite Hnone.
Qed.

(** A range of one EID and one link that holds it. *)
Lemma X6_pool_capacity_witness :
  (__init__ (Example.env_ok "mctpserial1" 4241) "/dev/ttyUSB1" [8]
     (run [Open (Example.env_ok "mctpserial0" 4240) "/dev/ttyUSB0" [8]] start)).2
  = Raise (AssertionError (msg_all_allocated "/dev/ttyUSB1")).
Proof.
  destruct (X6_pool_capacity [8]
              [Open (Example.env_ok "mctpserial0" 4240) "/dev/ttyUSB0" [8]])
    as [_ Hfull].
  - repeat first [apply Forall_nil_2 | apply Forall_cons_2]; cbn; done.
  - apply Hfull; [reflexivity|done].
Defined.

Import SerialLink.

Lemma filter_all {A} (P : A → Prop) `{∀ x, Decision (P x)} (l : list A) :
  Forall P l → filter P l = l.
Proof.
  induction 1 as [|x l Hx _ IH]; [done|].
  by rewrite filter_cons_True, IH.
Qed.

Lemma filter_ext_in {A} (P Q : A → Prop) `{∀ x, Decision (P x)}
    `{∀ x, Decision (Q x)} (l : list A) :
  (∀ x, x ∈ l → (P x ↔ Q x)) → filter P l = filter Q l.
Proof.
  induction l as [|x l IH]; intros Hext; [done|].
  rewrite !filter_cons.
  rewrite IH by (intros y Hy; apply Hext; by right).
  destruct (decide (P x)) as [Hp|Hp], (decide (Q x)) as [Hq|Hq]; try done.
  - destruct Hq. apply Hext; [by left|done].
  - destruct Hp. apply Hext; [by left|done].
Qed.

Lemma filter_none {A} (P : A → Prop) `{∀ x, Decision (P x)} (l : list A) :
  Forall (λ x, ¬ P x) l → filter P l = [].
Proof.
  induction 1 as [|x l Hx _ IH]; [done|].
  by rewrite filter_cons_False, IH.
Qed.

Lemma list_remove_filter {A} `{EqDecision A} (x : A) (l : list A) :
  NoDup l → remove_if_in x l = Ok (filter (λ y, y ≠ x) l).
Proof.
  unfold remove_if_in, list_in. intros Hnd. case_bool_decide as Hin.
  - induction Hnd as [|y l Hy Hnd IH]; [by apply elem_of_nil in Hin|].
    simpl. destruct (decide (x = y)) as [->|Hne].
    + rewrite filter_cons_False by (by intros ?). f_equal.
      symmetry. apply filter_all. apply Forall_forall.
      intros z Hz ->. done.
    + apply elem_of_cons in Hin as [?|Hin]; [done|].
      rewrite (IH Hin). by rewrite filter_cons_True by (by intros ->).
  - f_equal. symmetry. apply filter_all. apply Forall_forall.
    intros z Hz ->. done.
Qed.

(** [close] in a process where the invariant of the pool holds: the two
    class lists lose exactly the link and its EID. *)
Lemma close_exact self p l :
  pool_inv p → link_objs p !! self = Some l →
  let q := (close self p).1 in
  _assigned_links q = filter (λ a, a ≠ self) (_assigned_links p)
  ∧ _allocated_eids q = filter (λ e, _eid l ≠ Some e) (_allocated_eids p)
  ∧ link_objs q = <[self := blank_link]> (link_objs p)
  ∧ calls q = calls p ++ match _link_pid l with
                         | Some pid => [Kill pid]
                         | None => []
                         end
  ∧ ctl_objs q = ctl_objs p ∧ _instance q = _instance p
  ∧ stdout q = stdout p.
Proof.
  intros Hinv Hl q. subst q.
  destruct (close_spec self p l Hl)
    as (_ & Hobjs & Hlinks & Heids & Hcalls & Hctl & Hinst & Hout).
  rewrite (list_remove_filter self) in Hlinks by apply Hinv.
  injection Hlinks as <-. split; [done|]. split; [|done].
  destruct (_eid l) as [e|].
  - rewrite (list_remove_filter e) in Heids by apply Hinv.
    injection Heids as <-. apply list_filter_iff. intros x. split.
    + intros Hne [= ->]. done.
    + intros Hne ->. done.
  - rewrite Heids. symmetry. apply filter_all. by apply Forall_forall.
Qed.

(* ===================================================================== *)
(** * More about the range declaration                                    *)
(* ===================================================================== *)

Import Regex Config.

Lemma append_assoc (a b c : string) : (a +:+ b) +:+ c = a +:+ b +:+ c.
Proof.
  induction a as [|x a IH]; [done|].
  change (String x ((a +:+ b) +:+ c) = String x (a +:+ b +:+ c)).
  by rewrite IH.
Qed.

(** A greedy run splits the string into the run and a rest that the run
    stops in front of. *)
Lemma skip_spaces_split s :
  ∃ ws, s = ws +:+ skip_spaces s ∧ all_chars is_space ws = true
        ∧ stops is_space (skip_spaces s).
Proof.
  induction s as [|c s (ws & Hs & Hws & Hstop)]; simpl.
  - by exists EmptyString.
  - destruct (is_space c) eqn:Hc.
    + exists (String c ws). simpl. rewrite Hc. split; [|done].
      change (String c s = String c (ws +:+ skip_spaces s)). by f_equal.
    + exists EmptyString. by simpl.
Qed.

Lemma take_digits_split s d r :
  take_digits s = (d, r) →
  s = d +:+ r ∧ all_chars is_digit d = true ∧ stops is_digit r.
Proof.
  revert d r. induction s as [|c s IH]; intros d r; simpl.
  - by intros [= <- <-].
  - destruct (is_digit c) eqn:Hc.
    + destruct (take_digits s) as [d' r']. intros [= <- <-].
      destruct (IH d' r' eq_refl) as (Hs & Hd & Hr). simpl. rewrite Hc.
      split; [|done].
      change (String c s = String c (d' +:+ r')). by f_equal.
    + intros [= <- <-]. by simpl.
Qed.

(** X7.  The pattern matches at the head of a string, with the groups
    [num1] and [num2], exactly when the string is an opening bracket, white
    space, the digits [num1], white space, a comma, white space, the digits
    [num2], white space, a closing bracket, and anything after it, both
    runs of digits being non-empty: no sign, no other separator. *)
Theorem X7_pattern_language (s num1 num2 : string) :
  match_here s = Some (num1, num2) ↔
  ∃ b1 b2 b3 b4 tail,
    s = "[" +:+ b1 +:+ num1 +:+ b2 +:+ "," +:+ b3 +:+ num2 +:+ b4 +:+ "]"
          +:+ tail
    ∧ all_chars is_space b1 = true ∧ all_chars is_space b2 = true
    ∧ all_chars is_space b3 = true ∧ all_chars is_space b4 = true
    ∧ all_chars is_digit num1 = true ∧ num1 ≠ EmptyString
    ∧ all_chars is_digit num2 = true ∧ num2 ≠ EmptyString.
Proof.
  split.
  - unfold match_here. destruct s as [|c r0]; [done|].
    destruct (decide (c = "["%char)) as [->|Hc];
      [|by destruct c as [[] [] [] [] [] [] [] []]].
    destruct (skip_spaces_split r0) as (b1 & Hr0 & Hb1 & _).
    destruct (take_digits (skip_spaces r0)) as [d1 r1] eqn:Hd1.
    apply take_digits_split in Hd1 as (Hs1 & Hdig1 & _).
    case_decide as Hn1; [done|].
    destruct (skip_spaces_split r1) as (b2 & Hr1 & Hb2 & _).
    destruct (skip_spaces r1) as [|c2 r2]; [done|].
    destruct (decide (c2 = ","%char)) as [->|Hc2];
      [|by destruct c2 as [[] [] [] [] [] [] [] []]].
    destruct (skip_spaces_split r2) as (b3 & Hr2 & Hb3 & _).
    destruct (take_digits (skip_spaces r2)) as [d2 r3] eqn:Hd2.
    apply take_digits_split in Hd2 as (Hs2 & Hdig2 & _).
    case_decide as Hn2; [done|].
    destruct (skip_spaces_split r3) as (b4 & Hr3 & Hb4 & _).
    destruct (skip_spaces r3) as [|c4 tail]; [done|].
    destruct (decide (c4 = "]"%char)) as [->|Hc4];
      [|by destruct c4 as [[] [] [] [] [] [] [] []]].
    intros [= <- <-]. exists b1, b2, b3, b4, tail.
    split; [|done].
    rewrite Hr0, Hs1, Hr1, Hr2, Hs2, Hr3. done.
  - intros (b1 & b2 & b3 & b4 & tail & -> & ? & ? & ? & ? & ? & ? & ? & ?).
    by apply match_here_pair.
Qed.

Lemma append_nil_l_inv (pre s : string) :
  pre +:+ s = EmptyString → pre = EmptyString ∧ s = EmptyString.
Proof. destruct pre; [done|]. intros H. inversion H. Qed.

(** X8.  The search returns the groups of the leftmost position of the
    line at which the pattern matches, and nothing exactly when the pattern
    matches at no position. *)
Theorem X8_search_leftmost (line : string) :
  match re_search line with
  | Some g =>
      ∃ pre s, line = pre +:+ s ∧ match_here s = Some g
        ∧ ∀ pre' s', line = pre' +:+ s' →
            (String.length pre' < String.length pre)%nat →
            match_here s' = None
  | None => ∀ pre s, line = pre +:+ s → match_here s = None
  end.
Proof.
  induction line as [|c rest IH].
  - simpl. intros pre s H. symmetry in H.
    by apply append_nil_l_inv in H as [_ ->].
  - cbn [re_search]. destruct (match_here (String c rest)) as [g|] eqn:Hhere.
    + exists EmptyString, (String c rest). split; [done|]. split; [done|].
      intros pre' s' _ Hlt. simpl in Hlt. lia.
    + destruct (re_search rest) as [g|].
      * destruct IH as (pre & s & -> & Hs & Hleft).
        exists (String c pre), s. split; [done|]. split; [done|].
        intros [|c' pre'] s' Heq Hlt.
        -- change (EmptyString +:+ s') with s' in Heq. by subst s'.
        -- change (String c (pre +:+ s) = String c' (pre' +:+ s')) in Heq.
           inversion Heq; subst. apply (Hleft pre' s'); [done|].
           simpl in Hlt. lia.
      * intros [|c' pre'] s' Heq.
        -- change (EmptyString +:+ s') with s' in Heq. by subst s'.
        -- change (String c rest = String c' (pre' +:+ s')) in Heq.
           inversion Heq; subst. by apply (IH pre' s').
Qed.

Lemma scan_lines_Ok path lines r :
  scan_lines path lines = Ok r →
  ∃ lo hi, 0 < lo ∧ lo ≤ hi ∧ r = range lo (hi + 1).
Proof.
  induction lines as [|line rest IH]; simpl; [done|].
  destruct (startswith line "dynamic_eid_range"); [|done].
  destruct (re_search line) as [[num1 num2]|]; [|done].
  destruct (bool_decide (_ > 0) && bool_decide (_ > 0)) eqn:Hpos; [|done].
  apply andb_prop in Hpos as [Hlo%bool_decide_eq_true Hhi%bool_decide_eq_true].
  intros [= <-]. eexists _, _. split; [|split; [|done]]; lia.
Qed.

Lemma scan_lines_returns path lines : scan_lines path lines ≠ Diverge.
Proof.
  induction lines as [|line rest IH]; simpl; [done|].
  destruct (startswith line "dynamic_eid_range"); [|done].
  destruct (re_search line) as [[num1 num2]|]; [|done].
  by destruct (bool_decide (_ > 0) && bool_decide (_ > 0)).
Qed.

Lemma elem_of_range lo hi x : x ∈ range lo (hi + 1) ↔ lo ≤ x ≤ hi.
Proof. unfold range. rewrite elem_of_seqZ. lia. Qed.

(** X9.  [_configure_eid_range] never raises and has two outcomes only.
    Either [_eid_range] becomes the interval [lo .. hi] of a declaration
    with [0 < lo <= hi], in increasing order and without repetition, and
    nothing is printed; or [_eid_range] is left as it was and one line is
    printed. *)
Theorem X9_configure_outcome (fs : filesystem) (eid_range0 : list Z)
    (path : string) :
  let out := _configure_eid_range fs eid_range0 path in
  (∃ lo hi, 0 < lo ∧ lo ≤ hi
     ∧ out = (seqZ lo (hi - lo + 1), [])
     ∧ (∀ x, x ∈ out.1 ↔ lo ≤ x ≤ hi)
     ∧ NoDup out.1
     ∧ Z.of_nat (length out.1) = hi - lo + 1
     ∧ ∃ lines, fs path = Some lines
         ∧ Exists (λ l, startswith l "dynamic_eid_range" = true) lines)
  ∨ (∃ line, out = (eid_range0, [line])).
Proof.
  unfold _configure_eid_range, try_body. cbn zeta.
  destruct (fs path) as [lines|]; [|right; by eexists].
  destruct (scan_lines path lines) as [r|e|] eqn:Hscan.
  - left. destruct (scan_lines_Ok _ _ _ Hscan) as (lo & hi & Hlo & Hhi & ->).
    exists lo, hi. split; [done|]. split; [done|]. cbn [fst].
    split; [unfold range; do 2 f_equal; lia|].
    split; [apply elem_of_range|].
    split; [apply NoDup_seqZ|].
    split; [unfold range; rewrite length_seqZ; lia|].
    exists lines. split; [done|].
    clear -Hscan. induction lines as [|l lines IH]; simpl in Hscan; [done|].
    destruct (startswith l "dynamic_eid_range") eqn:Hl.
    + by apply Exists_cons_hd.
    + apply Exists_cons_tl. by apply IH.
  - right. by eexists.
  - by apply scan_lines_returns in Hscan.
Qed.

(** X10.  The first line that starts with the keyword decides alone: the
    lines before it are passed over, and the lines after it are never
    looked at, also when this first declaration is malformed and a later
    one is not. *)
Theorem X10_first_declaration_decides (fs fs' : filesystem)
    (eid_range0 : list Z) (path : string) (before after : list string)
    (line : string) :
  fs path = Some (before ++ line :: after) →
  fs' path = Some [line] →
  Forall (λ l, startswith l "dynamic_eid_range" = false) before →
  startswith line "dynamic_eid_range" = true →
  _configure_eid_range fs eid_range0 path
  = _configure_eid_range fs' eid_range0 path.
Proof.
  intros Hfs Hfs' Hbefore Hline.
  unfold _configure_eid_range, try_body. rewrite Hfs, Hfs'.
  rewrite (scan_lines_first _ _ _ _ Hbefore). cbn [scan_lines].
  by rewrite Hline.
Qed.

Lemma X10_first_declaration_decides_witness :
  _configure_eid_range
    (λ _, Some ["mode = bus-owner"; "dynamic_eid_range = 8, 254";
                "dynamic_eid_range = [8, 254]"]) [] "/etc/mctpd.conf"
  = _configure_eid_range (λ _, Some ["dynamic_eid_range = 8, 254"]) []
      "/etc/mctpd.conf".
Proof.
  apply (X10_first_declaration_decides _ _ _ _ ["mode = bus-owner"]
           ["dynamic_eid_range = [8, 254]"] "dynamic_eid_range = 8, 254");
    [done|done| |done].
  by repeat constructor.
Defined.

(* ===================================================================== *)
(** * More about the walk of the object tree                              *)
(* ===================================================================== *)

Import Walker.

Lemma startswith_inv s p : startswith s p = true → ∃ x, s = p +:+ x.
Proof.
  unfold startswith. revert s. induction p as [|c p IH]; intros s.
  - intros _. by exists s.
  - destruct s as [|d s]; [done|]. simpl.
    destruct (ascii_dec c d) as [->|]; [|done].
    intros [x ->]%IH. by exists x.
Qed.

Lemma startswith_refl s : startswith s s = true.
Proof.
  unfold startswith. induction s as [|c s IH]; [done|].
  simpl. by destruct (ascii_dec c c).
Qed.

Lemma startswith_trans s m p :
  startswith s m = true → startswith m p = true → startswith s p = true.
Proof.
  intros [x ->]%startswith_inv [y ->]%startswith_inv.
  rewrite append_assoc. apply startswith_app.
Qed.

Lemma child_path_below path child :
  startswith (child_path path child) path = true.
Proof.
  unfold child_path. destruct (negb _); apply startswith_app.
Qed.

Lemma get_properties_fields bus self cp p r :
  _get_properties bus self cp p = Some r →
  ∃ eid network_id,
    endpoint_props bus cp = Some (eid, network_id)
    ∧ r !! "path" = Some (PStr cp)
    ∧ r !! "eid" = Some (PInt eid)
    ∧ r !! "network_id" = Some (PInt network_id).
Proof.
  unfold _get_properties.
  destruct (endpoint_props bus cp) as [[eid network_id]|]; [|done].
  destruct (_get_link_from_eid self eid p); intros [= <-];
    exists eid, network_id; by vm_compute.
Qed.

(** X11.  Every record that a walk returns describes an endpoint that the
    bus reported: its keys [path], [eid] and [network_id] hold an object
    path and the two properties the bus gave for that path; the path
    contains the marker [/endpoints/] and is an extension of the path the
    walk started from. *)
Theorem X11_walk_sound (depth : nat) (bus : dbus) (self : nat) (p : process)
    (path : string) (found : list (gmap string pyval))
    (r : gmap string pyval) :
  _walk_tree depth bus self p path = Ok found →
  r ∈ found →
  ∃ cp eid network_id,
    endpoint_props bus cp = Some (eid, network_id)
    ∧ r !! "path" = Some (PStr cp)
    ∧ r !! "eid" = Some (PInt eid)
    ∧ r !! "network_id" = Some (PInt network_id)
    ∧ contains cp "/endpoints/" = true
    ∧ startswith cp path = true.
Proof.
  intros Hwalk Hr. revert r Hr. apply Forall_forall.
  revert path found Hwalk.
  induction depth as [|depth IH]; intros path found; [done|].
  simpl. destruct (introspect bus path) as [children|]; [|done].
  assert (Forall (λ r : gmap string pyval,
            ∃ cp eid network_id,
              endpoint_props bus cp = Some (eid, network_id)
              ∧ r !! "path" = Some (PStr cp)
              ∧ r !! "eid" = Some (PInt eid)
              ∧ r !! "network_id" = Some (PInt network_id)
              ∧ contains cp "/endpoints/" = true
              ∧ startswith cp path = true) []) as Hnil by constructor.
  revert Hnil. generalize (@nil (gmap string pyval)).
  induction children as [|child rest IHc]; intros results Hres; simpl.
  - by intros [= <-].
  - destruct (contains (child_path path child) "/endpoints/") eqn:Hend.
    + destruct (_get_properties _ _ _ _) as [props|] eqn:Hp; [|by apply IHc].
      apply IHc. apply Forall_app. split; [done|]. apply Forall_singleton.
      apply get_properties_fields in Hp as (eid & nid & ? & ? & ? & ?).
      exists (child_path path child), eid, nid.
      repeat (split; [done|]). apply child_path_below.
    + destruct (_walk_tree depth bus self p _) as [sub| |] eqn:Hsub; [|done..].
      apply IHc. apply Forall_app. split; [done|].
      apply IH in Hsub. eapply Forall_impl; [exact Hsub|]. simpl.
      intros r (cp & eid & nid & ? & ? & ? & ? & ? & Hbelow).
      exists cp, eid, nid. repeat (split; [done|]).
      eapply startswith_trans; [exact Hbelow|apply child_path_below].
Qed.

Lemma X11_walk_sound_witness :
  ∃ cp eid network_id,
    endpoint_props (Example.bus_with [8]) cp = Some (eid, network_id)
    ∧ Cases.record_of (Example.endpoints_path +:+ "/8") 8 1 !! "path"
      = Some (PStr cp)
    ∧ Cases.record_of (Example.endpoints_path +:+ "/8") 8 1 !! "eid"
      = Some (PInt eid)
    ∧ Cases.record_of (Example.endpoints_path +:+ "/8") 8 1 !! "network_id"
      = Some (PInt network_id)
    ∧ contains cp "/endpoints/" = true
    ∧ startswith cp Example.root = true.
Proof.
  apply (X11_walk_sound 5 (Example.bus_with [8]) 0 start Example.root
           [Cases.record_of (Example.endpoints_path +:+ "/8") 8 1]).
  - vm_compute. reflexivity.
  - apply elem_of_cons. by left.
Defined.

(** A walk that raises has met an introspection that raised. *)
Lemma walk_tree_raises depth bus self p path e :
  _walk_tree depth bus self p path = Raise e →
  e = DBusException
  ∧ ∃ cp, introspect bus cp = None ∧ startswith cp path = true.
Proof.
  revert path. induction depth as [|depth IH]; intros path; [done|].
  simpl. destruct (introspect bus path) as [children|] eqn:Hch.
  - clear Hch. generalize (@nil (gmap string pyval)).
    induction children as [|child rest IHc]; intros results; simpl; [done|].
    destruct (contains (child_path path child) "/endpoints/").
    + destruct (_get_properties _ _ _ _); apply IHc.
    + destruct (_walk_tree depth bus self p _) as [sub|e'|] eqn:Hsub;
        [apply IHc| |done].
      intros [= ->]. apply IH in Hsub as (-> & cp & Hcp & Hbelow).
      split; [done|]. exists cp. split; [done|].
      eapply startswith_trans; [exact Hbelow|apply child_path_below].
  - intros [= <-]. split; [done|]. exists path. split; [done|].
    apply startswith_refl.
Qed.

Lemma walk_children_agree walk walk' get get' path children results :
  (∀ cp, contains cp "/endpoints/" = false → walk cp = walk' cp) →
  (∀ cp, contains cp "/endpoints/" = true → get cp = get' cp) →
  walk_children walk get path children results
  = walk_children walk' get' path children results.
Proof.
  intros Hw Hg. revert results.
  induction children as [|child rest IH]; intros results; simpl; [done|].
  destruct (contains _ _) eqn:Hend.
  - rewrite (Hg _ Hend). by destruct (get' _).
  - rewrite (Hw _ Hend). by destruct (walk' _).
Qed.




(** X13.  A walk that starts outside the endpoint subtrees introspects
    only paths without the marker [/endpoints/] and reads the properties
    only of paths with it: two buses that agree there give the same walk,
    whatever they answer elsewhere.  In particular what lies below an
    endpoint node is never visited. *)
Theorem X13_walk_reads (depth : nat) (bus bus' : dbus) (self : nat)
    (p : process) (path : string) :
  contains path "/endpoints/" = false →
  (∀ q, contains q "/endpoints/" = false →
        introspect bus q = introspect bus' q) →
  (∀ q, contains q "/endpoints/" = true →
        endpoint_props bus q = endpoint_props bus' q) →
  _walk_tree depth bus self p path = _walk_tree depth bus' self p path.
Proof.
  intros Hpath Hintro Hprops. revert path Hpath.
  induction depth as [|depth IH]; intros path Hpath; [done|].
  simpl. rewrite <- (Hintro path Hpath).
  destruct (introspect bus path) as [children|]; [|done].
  apply walk_children_agree; [exact IH|].
  intros cp Hend. unfold _get_properties. by rewrite (Hprops _ Hend).
Qed.

Lemma X13_walk_reads_witness :
  _walk_tree 8 (Example.bus_with [8; 9; 10]) 0 start Example.root
  = _walk_tree 8 (Cases.with_subnodes (Example.bus_with [8; 9; 10])) 0
      start Example.root.
Proof.
  apply X13_walk_reads.
  - vm_compute. reflexivity.
  - intros q Hq. simpl. by rewrite Hq.
  - intros q Hq. simpl. by rewrite Hq.
Defined.

Lemma walk_children_endpoints walk bus self p path children results :
  Forall (λ child, contains (child_path path child) "/endpoints/" = true)
         children →
  walk_children walk (λ cp, _get_properties bus self cp p) path children
                results
  = Ok (results
        ++ omap (λ child, _get_properties bus self (child_path path child) p)
                children).
Proof.
  intros Hall. revert results.
  induction Hall as [|child rest Hend _ IH]; intros results; simpl.
  - by rewrite app_nil_r.
  - rewrite Hend. destruct (_get_properties _ _ _ _) as [props|]; [|done].
    rewrite IH. by rewrite <- app_assoc.
Qed.

(** X14.  At a node whose children are all endpoints the walk returns,
    without going deeper, the records of the children in the order in
    which the introspection lists them, leaving out the children whose
    properties cannot be read. *)
Theorem X14_walk_endpoints_node (depth : nat) (bus : dbus) (self : nat)
    (p : process) (path : string) (children : list string) :
  introspect bus path = Some children →
  Forall (λ child, contains (child_path path child) "/endpoints/" = true)
         children →
  _walk_tree (S depth) bus self p path
  = Ok (omap (λ child, _get_properties bus self (child_path path child) p)
             children).
Proof.
  intros Hch Hall. simpl. rewrite Hch.
  by rewrite walk_children_endpoints.
Qed.

Lemma X14_walk_endpoints_node_witness :
  _walk_tree 1 (Example.bus_with [8; 9; 10]) 0 start Example.endpoints_path
  = Ok (omap (λ child, _get_properties (Example.bus_with [8; 9; 10]) 0
                          (child_path Example.endpoints_path child) start)
             ["8"; "9"; "10"]).
Proof.
  apply X14_walk_endpoints_node.
  - vm_compute. reflexivity.
  - repeat constructor.
Defined.








(* ===================================================================== *)
(** * More about the controller                                           *)
(* ===================================================================== *)

Import Walker BusController Provisioning.

Lemma match_devices_from (glob : string → list string) (args acc : list string) :
  NoDup acc →
  let files := foldl (λ file_list filespec,
                        remove_dups (file_list ++ glob filespec)) acc args in
  NoDup files
  ∧ ∀ f, f ∈ files ↔ f ∈ acc ∨ ∃ a, a ∈ args ∧ f ∈ glob a.
Proof.
  revert acc. induction args as [|a args IH]; intros acc Hacc; cbn zeta; simpl.
  - split; [done|]. intros f. split; [by left|].
    intros [?|(a & Ha & _)]; [done|]. by apply elem_of_nil in Ha.
  - destruct (IH (remove_dups (acc ++ glob a))) as [Hnd Hin];
      [apply NoDup_remove_dups|].
    split; [done|]. intros f. rewrite Hin, elem_of_remove_dups, elem_of_app.
    split.
    + intros [[?|?]|(b & Hb & Hf)]; [by left|right; exists a|right; exists b];
        (split; [|done]); [by left|by right].
    + intros [?|(b & [->|Hb]%elem_of_cons & Hf)];
        [by left; left|by left; right|right; by exists b].
Qed.

(** X17.  The device paths a controller opens are the paths that match at
    least one of the patterns, each of them once, however many patterns it
    matches and however often a pattern is given. *)
Theorem X17_match_devices (glob : string → list string)
    (args : list string) :
  NoDup (match_devices glob args)
  ∧ ∀ f, f ∈ match_devices glob args ↔ ∃ a, a ∈ args ∧ f ∈ glob a.
Proof.
  destruct (match_devices_from glob args [] (NoDup_nil_2)) as [Hnd Hin].
  split; [done|]. intros f. rewrite (Hin f). split; [|by right].
  intros [Hnil|?]; [by apply elem_of_nil in Hnil|done].
Qed.

(** The invariant of the pool looks at the links and the two class lists
    only. *)
Lemma pool_inv_same p q :
  link_objs q = link_objs p → _assigned_links q = _assigned_links p →
  _allocated_eids q = _allocated_eids p →
  SerialLink.pool_inv p → SerialLink.pool_inv q.
Proof.
  intros Hobjs Hlinks Heids [Hnd Hlnd Hlb Hheld Hown Huniq].
  split; unfold SerialLink.holds, SerialLink.get_eid in *;
    rewrite ?Hobjs, ?Hlinks, ?Heids; done.
Qed.

(** What holds before the loop and is kept by every call and by [close]
    holds after the loop. *)
Lemma stabilize_keeps (P : process → Prop) fuel polls self i elapsed prev p :
  (∀ e q, P q → P (call e q)) →
  (∀ q, P q → P (close self q).1) →
  P p → P (stabilize fuel polls self i elapsed prev p).1.
Proof.
  intros Hcall Hclose. revert i elapsed prev p.
  induction fuel as [|fuel IH]; intros i elapsed prev p Hp; [done|].
  cbn [stabilize].
  set (q := call (Discover _) p). assert (P q) as Hq by by apply Hcall.
  destruct (discover_endpoints _ _ self q) as [endpoints|e|]; [|done..].
  destruct (decide _); [done|]. destruct (decide _).
  - pose proof (Hclose q Hq) as Hc.
    destruct (close self q) as [q' [[]|e|]]; done.
  - apply IH. by apply Hcall.
Qed.

Lemma close_links_keeps (P : process → Prop) links p :
  (∀ link q, P q → P (SerialLink.close link q).1) →
  P p → P (close_links links p).1.
Proof.
  intros Hclose. revert p. induction links as [|l links IH]; intros p Hp;
    [done|]. simpl. pose proof (Hclose l p Hp) as Hq.
  pose proof (link_close_ok l p) as Hok.
  destruct (SerialLink.close l p) as [q r]. simpl in *. subst r. by apply IH.
Qed.

Lemma controller_close_inv self p :
  SerialLink.pool_inv p → SerialLink.pool_inv (close self p).1.
Proof.
  intros Hp. unfold close. destruct (ctl_objs p !! self) as [c|]; [|done].
  pose proof (close_links_keeps SerialLink.pool_inv (_serial_links c) p
                (λ link q, inv_close link q) Hp) as Hq.
  pose proof (close_links_ok (_serial_links c) p) as Hok.
  destruct (close_links (_serial_links c) p) as [q r]. simpl in *. subst r.
  cbn [fst]. destruct (_instance _); by eapply pool_inv_same; [..|exact Hq].
Qed.

Lemma open_links_inv env self files p :
  SerialLink.pool_inv p → SerialLink.pool_inv (open_links env self files p).1.
Proof.
  revert p. induction files as [|f files IH]; intros p Hp; [done|].
  simpl.
  pose proof (inv_init (link_env env f) f
                (default [] (_eid_range <$> ctl_objs p !! self)) p Hp) as Hq.
  destruct (SerialLink.__init__ _ _ _ p) as [q [link|e|]]; [|done..].
  apply IH. by eapply pool_inv_same; [..|exact Hq].
Qed.

Lemma init_inv env config_file_path args p :
  SerialLink.pool_inv p →
  SerialLink.pool_inv (__init__ env config_file_path args p).1.
Proof.
  intros Hp. unfold __init__.
  set (p1 := with_ctl_objs _ p).
  assert (SerialLink.pool_inv p1) as Hp1 by by eapply pool_inv_same; [..|exact Hp].
  destruct (negb _); [done|]. destruct (negb _); [done|].
  destruct (Config._configure_eid_range _ _ _) as [eid_range printed].
  set (p2 := foldl _ _ printed).
  assert (SerialLink.pool_inv p2) as Hp2.
  { destruct (print_lines_same printed
                (set_ctl (length (ctl_objs p)) (set_eid_range eid_range) p1))
      as (? & ? & ? & _).
    by eapply pool_inv_same; [..|exact Hp1]. }
  destruct (negb _); [done|]. destruct (negb _); [done|].
  pose proof (open_links_inv env (length (ctl_objs p))
                (match_devices (glob env) args) p2 Hp2) as Hp3.
  destruct (open_links _ _ _ p2) as [p3 [[]|e|]]; [|done..].
  cbn [fst] in Hp3.
  set (p4 := set_ctl _ _ _).
  assert (SerialLink.pool_inv p4) as Hp4.
  { subst p4. destruct (service_active env);
      by eapply pool_inv_same; [..|exact Hp3]. }
  pose proof (stabilize_keeps SerialLink.pool_inv enough_polls (polls env)
                (length (ctl_objs p)) 0 0 (-1) p4) as Hp5.
  destruct (stabilize _ _ _ _ _ _ p4) as [p5 [[]|e|]]; cbn [fst] in *;
    [eapply pool_inv_same; [..|apply Hp5]; try done|apply Hp5..];
    try (intros e' q Hq; by eapply pool_inv_same; [..|exact Hq]);
    try (intros q Hq; by apply controller_close_inv); done.
Qed.

(** X18.  Whatever controllers are constructed and closed, in whatever
    order and with whatever outcome, the links of the process never share
    an EID: every EID that a link holds is allocated, the allocated EIDs
    are distinct, and an EID is held by one link at most.  This holds also
    while more than one controller owns links. *)
Theorem X18_controllers_share_pool (ops : list op) :
  let p := (run ops start).1 in
  NoDup (_allocated_eids p)
  ∧ (∀ a e, SerialLink.holds p a e → e ∈ _allocated_eids p)
  ∧ (∀ e, e ∈ _allocated_eids p → ∃ a, SerialLink.holds p a e)
  ∧ (∀ a b e, SerialLink.holds p a e → SerialLink.holds p b e → a = b).
Proof.
  cut (SerialLink.pool_inv (run ops start).1).
  { intros [? ? ? ? ? ?]. done. }
  unfold run. generalize (@nil (res nat)).
  assert (SerialLink.pool_inv start) as Hstart by apply inv_start.
  revert Hstart. generalize start.
  induction ops as [|o ops IH]; intros p Hp results; [done|].
  simpl. destruct o as [env cfg args|self]; simpl.
  - pose proof (init_inv env cfg args p Hp) as Hq.
    destruct (__init__ env cfg args p) as [q r]. by apply IH.
  - apply IH. by apply controller_close_inv.
Qed.

Lemma alter_id_at {A} (f : A → A) (l : list A) (i : nat) :
  (∀ x, f x = x) → alter f i l = l.
Proof.
  intros Hf. revert i. induction l as [|y l IH]; intros [|i]; simpl;
    try done; f_equal; [apply Hf|apply IH].
Qed.

(** The loop that opens the links, when it completes: one link object per
    device path, in the order of the paths, each with an EID of its own
    from the range of the controller. *)
Lemma open_links_ok env self files p q :
  open_links env self files p = (q, Ok tt) →
  let n := length (link_objs p) in
  ∃ objs eids,
    link_objs q = link_objs p ++ objs
    ∧ _device_path <$> objs = Some <$> files
    ∧ _eid <$> objs = Some <$> eids
    ∧ eids ⊆ default [] (_eid_range <$> ctl_objs p !! self)
    ∧ NoDup eids ∧ (∀ e, e ∈ eids → e ∉ _allocated_eids p)
    ∧ _allocated_eids q = _allocated_eids p ++ eids
    ∧ _assigned_links q = _assigned_links p ++ seq n (length files)
    ∧ ctl_objs q
      = alter (λ c, set_serial_links
                      (_serial_links c ++ seq n (length files)) c)
              self (ctl_objs p)
    ∧ _instance q = _instance p ∧ stdout q = stdout p
    ∧ calls q = calls p ++ mjoin (provisioning_calls <$> objs)
    ∧ Forall (λ l, length (provisioning_calls l) = 3%nat) objs.
Proof.
  revert p. induction files as [|f files IH]; intros p; cbn zeta.
  - intros [= <-]. exists [], []. simpl. rewrite !app_nil_r.
    split; [done|]. split; [done|]. split; [done|].
    split; [by intros x Hx%elem_of_nil|]. split; [constructor|].
    split; [by intros x Hx%elem_of_nil|]. split; [done|]. split; [done|].
    split; [|done]. symmetry. apply alter_id_at.
    intros [r l d]. unfold set_serial_links. simpl. by rewrite app_nil_r.
  - cbn [open_links].
    set (eid_range := default [] (_eid_range <$> ctl_objs p !! self)).
    pose proof (open_ok_spec (link_env env f) f eid_range p) as Hopen.
    destruct (SerialLink.__init__ (link_env env f) f eid_range p)
      as [p1 [link|e|]]; [|done..].
    destruct (Hopen link eq_refl)
      as (-> & eid & name & Hobjs & Hin & Hfree & _ & Heids & Hlinks
          & Hcalls & Hctl & Hinst & Hout).
    cbn [fst] in *.
    set (p2 := set_ctl self _ p1). intros Hrest.
    destruct (IH p2 Hrest)
      as (objs & eids & Hobjs' & Hdev & Heid & Hsub & Hnd & Hfresh & Heids'
          & Hlinks' & Hctl' & Hinst' & Hout' & Hcalls' & Hthree).
    subst p2.
    cbn [link_objs _allocated_eids _assigned_links ctl_objs _instance stdout
         calls set_ctl with_ctl_objs] in *.
    rewrite Hobjs in Hobjs', Hlinks', Hctl'.
    rewrite length_app in Hlinks', Hctl'.
    cbn [length] in Hlinks', Hctl'.
    rewrite Nat.add_1_r in Hlinks', Hctl'.
    exists (mkLink (Some eid) (Some (SerialLink.popen_pid (link_env env f)))
                   (Some name) (Some f) :: objs), (eid :: eids).
    split; [by rewrite Hobjs', <- app_assoc|].
    split; [by rewrite !fmap_cons, Hdev|].
    split; [by rewrite !fmap_cons, Heid|].
    split.
    { intros x [->|Hx]%elem_of_cons; [done|]. apply Hsub in Hx.
      rewrite Hctl, list_lookup_alter_eq in Hx.
      by destruct (ctl_objs p !! self). }
    split.
    { apply NoDup_cons. split; [|done]. intros He. apply Hfresh in He.
      apply He. rewrite Heids. apply elem_of_app. right. by left. }
    split.
    { intros x [->|Hx]%elem_of_cons; [done|]. intros Hp.
      apply (Hfresh x Hx). rewrite Heids. apply elem_of_app. by left. }
    split; [by rewrite Heids', Heids, <- app_assoc|].
    split; [by rewrite Hlinks', Hlinks, <- app_assoc|].
    split.
    { rewrite Hctl', Hctl, list_alter_alter_eq. apply list_alter_ext; [|done].
      intros [r l d] _. unfold set_serial_links. simpl.
      by rewrite <- app_assoc. }
    split; [by rewrite Hinst'|]. split; [by rewrite Hout'|].
    split; [|by constructor].
    rewrite Hcalls', Hcalls, <- app_assoc. done.
Qed.

Lemma after_calls_refl ok p : after_calls ok p p.
Proof.
  repeat (split; [done|]). exists []. by rewrite app_nil_r.
Qed.

Lemma after_calls_call (ok : event → Prop) p q e :
  after_calls ok p q → ok e → after_calls ok p (call e q).
Proof.
  intros (? & ? & ? & ? & ? & ? & evs & Hcalls & Hok) He.
  repeat (split; [done|]). exists (evs ++ [e]). cbn [calls call].
  split; [by rewrite Hcalls, <- app_assoc|].
  apply Forall_app. split; [done|]. by apply Forall_singleton.
Qed.

Lemma after_calls_first (ok : event → Prop) p q e :
  ok e → after_calls ok (call e p) q → after_calls ok p q.
Proof.
  intros He (? & ? & ? & ? & ? & ? & evs & Hcalls & Hok).
  repeat (split; [done|]). exists (e :: evs). cbn [calls call] in Hcalls.
  split; [by rewrite Hcalls, <- app_assoc|]. by constructor.
Qed.

Lemma discover_raises depth bus self p e :
  discover_endpoints depth bus self p = Raise e →
  e = DBusException ∨ e = AttributeError.
Proof.
  unfold discover_endpoints.
  destruct (ctl_objs p !! self ≫= _dbus_root) as [root|].
  - intros [-> _]%walk_tree_raises. by left.
  - intros [= <-]. by right.
Qed.

(** The three ways the loop ends: it returns after [k + 1] walks, it
    closes the controller and raises the timeout, or a walk raises. *)
Lemma stabilize_spec fuel polls self i elapsed previous_count p :
  let root := default "" (ctl_objs p !! self ≫= _dbus_root) in
  let out := stabilize fuel polls self i elapsed previous_count p in
  match out.2 with
  | Ok _ =>
      after_calls loop_call p (out.1)
      ∧ ∃ k, calls (out.1) = calls p ++ loop_calls root k
             ∧ (previous_count < 0 → (0 < k)%nat)
  | Raise e =>
      (e = AssertionError msg_not_stable
       ∧ ∃ q, after_calls loop_call p q ∧ out.1 = (close self q).1)
      ∨ ((e = DBusException ∨ e = AttributeError)
         ∧ after_calls loop_call p (out.1))
  | Diverge => True
  end.
Proof.
  revert i elapsed previous_count p.
  induction fuel as [|fuel IH]; intros i elapsed prev p; [done|].
  cbn zeta. cbn [stabilize].
  set (root := default "" (ctl_objs p !! self ≫= _dbus_root)).
  set (q := call (Discover root) p).
  assert (after_calls loop_call p q) as Hq
    by (apply after_calls_call; [apply after_calls_refl|done]).
  destruct (discover_endpoints _ _ self q) as [endpoints|e|] eqn:Hd;
    cbn [fst snd]; [| |done].
  - destruct (decide (Z.of_nat (length endpoints) = prev)) as [Heq|Hne].
    { cbn [fst snd]. split; [done|]. exists 0%nat. split; [done|]. lia. }
    destruct (decide (_ > timeout)).
    { pose proof (controller_close_ok self q) as Hok.
      destruct (close self q) as [q' r] eqn:Hcl. cbn [snd] in Hok. subst r.
      cbn [fst snd]. left. split; [done|]. exists q. by rewrite Hcl. }
    specialize (IH (S i) (elapsed + Z.of_N (duration (polls i))
                          + sleep_seconds * 1000)
                  (Z.of_nat (length endpoints))
                  (call (Sleep sleep_seconds) q)).
    cbn zeta in IH.
    change (default "" (ctl_objs (call (Sleep sleep_seconds) q) !! self
                        ≫= _dbus_root)) with root in IH.
    assert (after_calls loop_call p (call (Sleep sleep_seconds) q)) as Hq'
      by by apply after_calls_call.
    destruct (stabilize fuel polls self (S i) _ _ _) as [q2 [[]|e|]];
      cbn [fst snd] in *; [| |done].
    + destruct IH as (Hafter & k & Hcalls & _). split.
      * apply (after_calls_first _ _ _ (Discover root)); [done|].
        by apply (after_calls_first _ _ _ (Sleep sleep_seconds)).
      * exists (S k). split; [|lia]. rewrite Hcalls. cbn [calls call q].
        rewrite <- !app_assoc. done.
    + destruct IH as [(-> & q3 & Hq3 & ->)|(He & Hafter)].
      * left. split; [done|]. exists q3. split; [|done].
        apply (after_calls_first _ _ _ (Discover root)); [done|].
        by apply (after_calls_first _ _ _ (Sleep sleep_seconds)).
      * right. split; [done|].
        apply (after_calls_first _ _ _ (Discover root)); [done|].
        by apply (after_calls_first _ _ _ (Sleep sleep_seconds)).
  - right. split; [by apply discover_raises in Hd|done].
Qed.



Lemma fmap_eq_lookup {A B} (f : A → B) (l : list A) (k : list B) i y :
  f <$> l = k → k !! i = Some y → ∃ x, l !! i = Some x ∧ f x = y.
Proof.
  intros <- Hy. rewrite list_lookup_fmap in Hy.
  destruct (l !! i) as [x|]; [|done]. injection Hy as <-. by exists x.
Qed.





(** The constructor of a link raises none of the errors of the
    controller's loop. *)
Lemma open_raises env device_path allowed_eids p e :
  (SerialLink.__init__ env device_path allowed_eids p).2 = Raise e →
  e ≠ AssertionError msg_not_stable.
Proof.
  unfold SerialLink.__init__.
  destruct (SerialLink.remaining_eids _ _ _); [by intros [= <-]|].
  destruct (negb _); [by intros [= <-]|].
  destruct (SerialLink._wait_for_new_interface _ _); [|by intros [= <-]].
  repeat case_bool_decide; by intros [= <-].
Qed.

(** The loop that opens the links, when a constructor raises: the links
    opened before it stay as they are. *)
Lemma open_links_fail env self files p q e :
  open_links env self files p = (q, Raise e) →
  let n := length (link_objs p) in
  e ≠ AssertionError msg_not_stable
  ∧ ∃ objs eids l evs,
      (length eids < length files)%nat
      ∧ link_objs q = link_objs p ++ objs ++ [l] ∧ _eid l = None
      ∧ _eid <$> objs = Some <$> eids
      ∧ _allocated_eids q = _allocated_eids p ++ eids
      ∧ _assigned_links q = _assigned_links p ++ seq n (length eids)
      ∧ _instance q = _instance p ∧ stdout q = stdout p
      ∧ calls q = calls p ++ evs ∧ Forall mctp_call evs.
Proof.
  revert p. induction files as [|f files IH]; intros p; cbn zeta; [done|].
  cbn [open_links].
  set (eid_range := default [] (_eid_range <$> ctl_objs p !! self)).
  pose proof (open_ok_spec (link_env env f) f eid_range p) as Hopen.
  pose proof (open_fail_spec (link_env env f) f eid_range p) as Hfail.
  pose proof (open_raises (link_env env f) f eid_range p) as Hnot.
  destruct (SerialLink.__init__ (link_env env f) f eid_range p)
    as [p1 [link|e'|]]; [| |done].
  - destruct (Hopen link eq_refl)
      as (-> & eid & name & Hobjs & Hin & Hfree & _ & Heids & Hlinks
          & Hcalls & Hctl & Hinst & Hout).
    cbn [fst] in *. set (p2 := set_ctl self _ p1). intros Hrest.
    destruct (IH p2 Hrest)
      as (He & objs & eids & l & evs & Hlt & Hobjs' & Hl & Heid & Heids'
          & Hlinks' & Hinst' & Hout' & Hcalls' & Hevs).
    subst p2.
    cbn [link_objs _allocated_eids _assigned_links ctl_objs _instance stdout
         calls set_ctl with_ctl_objs] in *.
    rewrite Hobjs in Hobjs', Hlinks'. rewrite length_app in Hlinks'.
    cbn [length] in Hlinks'. rewrite Nat.add_1_r in Hlinks'.
    split; [done|].
    exists (mkLink (Some eid) (Some (SerialLink.popen_pid (link_env env f)))
                   (Some name) (Some f) :: objs), (eid :: eids), l.
    eexists. split; [cbn [length]; lia|].
    split; [by rewrite Hobjs', <- !app_assoc|]. split; [done|].
    split; [by rewrite !fmap_cons, Heid|].
    split; [by rewrite Heids', Heids, <- app_assoc|].
    split; [by rewrite Hlinks', Hlinks, <- app_assoc|].
    split; [by rewrite Hinst'|]. split; [by rewrite Hout'|].
    split; [rewrite Hcalls', Hcalls, <- app_assoc; reflexivity|].
    apply Forall_app. split; [|done]. by repeat constructor.
  - cbn [fst snd] in *. intros [= <- <-].
    destruct (Hfail eq_refl)
      as (l & evs & Hobjs & Hl & Heids & Hlinks & Hcalls & Hevs & _ & Hinst
          & Hout).
    split; [by apply Hnot|]. exists [], [], l, evs. cbn [length].
    split; [lia|]. rewrite !app_nil_r. done.
Qed.

(** The process when the loop of the constructor starts, given the process
    after the last link. *)
Lemma restarted_spec (active : bool) self p3 :
  let p4 :=
    set_ctl self (set_dbus_root (Some "/au/com/codeconstruct/mctp1"))
      (call SystemBus
         (call (systemctl "start")
            (if active
             then call (systemctl "stop") (call (systemctl "is-active") p3)
             else call (systemctl "is-active") p3))) in
  link_objs p4 = link_objs p3 ∧ _assigned_links p4 = _assigned_links p3
  ∧ _allocated_eids p4 = _allocated_eids p3 ∧ _instance p4 = _instance p3
  ∧ stdout p4 = stdout p3
  ∧ calls p4 = calls p3 ++ restart_calls active
  ∧ ctl_objs p4
    = alter (set_dbus_root (Some "/au/com/codeconstruct/mctp1")) self
            (ctl_objs p3).
Proof.
  unfold restart_calls. destruct active; cbn; rewrite <- ?app_assoc; done.
Qed.

(** How far a constructor gets: it fails one of its assertions before any
    link is opened; or the loop over the device paths raises; or the links
    are all opened, the daemon is started, and the outcome is that of the
    stabilisation loop. *)
Lemma init_cases env config_file_path args p :
  let out := __init__ env config_file_path args p in
  let self := length (ctl_objs p) in
  let files := match_devices (glob env) args in
  (same_links_and_calls p (out.1) ∧ is_ok (out.2) = false
   ∧ ∀ e, out.2 = Raise e → e ≠ AssertionError msg_not_stable)
  ∨ ∃ p2 p3 r,
      same_links_and_calls p p2
      ∧ _instance p = None
      ∧ ctl_objs p2
        = ctl_objs p
          ++ [mkController
                (Config._configure_eid_range (fs env) [] config_file_path).1
                [] None]
      ∧ open_links env self files p2 = (p3, r)
      ∧ match r with
        | Ok _ =>
            ∃ p4, link_objs p4 = link_objs p3
              ∧ _assigned_links p4 = _assigned_links p3
              ∧ _allocated_eids p4 = _allocated_eids p3
              ∧ _instance p4 = _instance p3
              ∧ calls p4 = calls p3 ++ restart_calls (service_active env)
              ∧ ctl_objs p4
                = alter (set_dbus_root (Some "/au/com/codeconstruct/mctp1"))
                        self (ctl_objs p3)
              ∧ out = match stabilize enough_polls (polls env) self 0 0 (-1)
                              p4 with
                      | (p5, Ok _) => (with_instance (Some self) p5, Ok self)
                      | (p5, Raise e) => (p5, Raise e)
                      | (p5, Diverge) => (p5, Diverge)
                      end
        | Raise e => out = (p3, Raise e)
        | Diverge => out = (p3, Diverge)
        end.
Proof.
  cbn zeta. unfold __init__. cbn [_instance with_ctl_objs].
  destruct (_instance p) eqn:Hinst.
  { left. cbn. split; [done|]. split; [done|]. by intros e [= <-]. }
  cbn [negb bool_decide]. rewrite bool_decide_eq_true_2 by done. cbn [negb].
  case_bool_decide as Hargs; cbn [negb].
  2:{ left. cbn. split; [done|]. split; [done|]. by intros e [= <-]. }
  destruct (Config._configure_eid_range _ _ _) as [eid_range printed].
  set (p1 := set_ctl _ _ _).
  pose proof (print_lines_same printed p1) as Hprint.
  assert (ctl_objs (foldl (λ p line, print line p) p1 printed) = ctl_objs p1)
    as Hctl.
  { clear Hprint. generalize p1.
    induction printed as [|line printed IH]; intros p0; [done|].
    simpl. by rewrite IH. }
  set (p2 := foldl _ p1 printed) in *.
  assert (same_links_and_calls p p2) as Hsame.
  { destruct Hprint as (? & ? & ? & ? & ?). subst p1. by cbn in *. }
  case_bool_decide as Hfiles; cbn [negb].
  2:{ left. cbn [fst snd]. split; [done|]. split; [done|]. by intros e [= <-]. }
  case_bool_decide as Henough; cbn [negb].
  2:{ left. cbn [fst snd]. split; [done|]. split; [done|]. by intros e [= <-]. }
  right.
  destruct (open_links env (length (ctl_objs p)) _ p2) as [p3 r] eqn:Ho.
  exists p2, p3, r. split; [done|]. split; [done|]. split.
  { rewrite Hctl. subst p1. cbn [ctl_objs set_ctl with_ctl_objs].
    by rewrite alter_last. }
  split; [done|]. destruct r as [[]|e|]; [|done..].
  eexists. pose proof (restarted_spec (service_active env)
                         (length (ctl_objs p)) p3) as Hre.
  cbn zeta in Hre.
  destruct Hre as (? & ? & ? & ? & ? & ? & ?).
  repeat (split; [eassumption|]). done.
Qed.

Lemma provisioning_calls_mctp l : Forall mctp_call (provisioning_calls l).
Proof.
  unfold provisioning_calls.
  destruct (_device_path l), (_link_pid l), (_link_name l), (_eid l);
    by repeat constructor.
Qed.

Lemma no_kill_among (ok : event → Prop) evs :
  (∀ pid, ¬ ok (Kill pid)) → Forall ok evs → ∀ pid, Kill pid ∉ evs.
Proof.
  intros Hno Hall pid Hin. rewrite Forall_forall in Hall.
  by apply (Hno pid), Hall.
Qed.



(** The loop of [close] over distinct links, in a process where the
    invariant of the pool holds: the class lists lose exactly the links and
    the EIDs they hold, the links are blank afterwards, and every link that
    has a process gets its signal, in the order of the list. *)
Lemma close_links_exact links p :
  SerialLink.pool_inv p → NoDup links →
  let q := (close_links links p).1 in
  _assigned_links q = filter (λ a, a ∉ links) (_assigned_links p)
  ∧ _allocated_eids q
    = filter (λ e, Some e ∉ (λ a, SerialLink.get_eid a p) <$> links)
             (_allocated_eids p)
  ∧ (∀ a, a ∈ links →
       link_objs q !! a = (λ _, SerialLink.blank_link) <$> link_objs p !! a)
  ∧ (∀ a, a ∉ links → link_objs q !! a = link_objs p !! a)
  ∧ calls q
    = calls p ++ omap (λ a, Kill <$> (link_objs p !! a ≫= _link_pid)) links
  ∧ ctl_objs q = ctl_objs p ∧ _instance q = _instance p
  ∧ stdout q = stdout p.
Proof.
  intros Hinv Hnd. revert p Hinv.
  induction Hnd as [|a rest Ha Hnd IH]; intros p Hinv; cbn zeta.
  { cbn [close_links fst fmap list_fmap omap list_omap].
    rewrite app_nil_r.
    split; [symmetry; apply filter_all, Forall_forall;
            by intros x _ Hx%elem_of_nil|].
    split; [symmetry; apply filter_all, Forall_forall;
            by intros x _ Hx%elem_of_nil|].
    split; [by intros x Hx%elem_of_nil|]. done. }
  cbn [close_links].
  pose proof (link_close_ok a p) as Hok.
  pose proof (inv_close a p Hinv) as Hinv1.
  destruct (SerialLink.close a p) as [p1 r] eqn:Hcl. cbn [fst snd] in *.
  subst r.
  destruct (IH p1 Hinv1)
    as (Hlinks & Heids & Hblank & Hkeep & Hcalls & Hctl & Hinst & Hout).
  assert (_assigned_links p1 = filter (λ x, x ≠ a) (_assigned_links p)
          ∧ _allocated_eids p1
            = filter (λ e, SerialLink.get_eid a p ≠ Some e) (_allocated_eids p)
          ∧ link_objs p1 !! a
            = (λ _, SerialLink.blank_link) <$> link_objs p !! a
          ∧ (∀ b, b ≠ a → link_objs p1 !! b = link_objs p !! b)
          ∧ calls p1 = calls p ++ match link_objs p !! a ≫= _link_pid with
                                 | Some pid => [Kill pid]
                                 | None => []
                                 end
          ∧ ctl_objs p1 = ctl_objs p ∧ _instance p1 = _instance p
          ∧ stdout p1 = stdout p)
    as (Hlinks1 & Heids1 & Hblank1 & Hkeep1 & Hcalls1 & Hctl1 & Hinst1 & Hout1).
  { unfold SerialLink.get_eid.
    destruct (link_objs p !! a) as [l|] eqn:Hl.
    - pose proof (close_exact a p l Hinv Hl) as Hex. cbn zeta in Hex.
      rewrite Hcl in Hex. cbn [fst] in Hex.
      destruct Hex as (? & ? & Hobjs & ? & ? & ? & ?).
      cbn [mbind option_bind fmap option_fmap option_map].
      split; [done|]. split; [done|].
      split; [rewrite Hobjs; apply list_lookup_insert_eq;
              by apply lookup_lt_Some in Hl|].
      split; [intros b Hb; rewrite Hobjs; by apply list_lookup_insert_ne|].
      done.
    - rewrite close_dangling in Hcl by done. injection Hcl as <-.
      cbn [mbind option_bind fmap option_fmap option_map].
      rewrite app_nil_r, Hl.
      split.
      { symmetry. apply filter_all, Forall_forall. intros x Hx ->.
        apply (SerialLink.inv_links_bound _ Hinv) in Hx.
        apply lookup_ge_None in Hl. lia. }
      split; [symmetry; by apply filter_all, Forall_forall|]. done. }
  assert (∀ b, b ∈ rest → b ≠ a) as Hne by (intros b Hb ->; done).
  split.
  { rewrite Hlinks, Hlinks1, list_filter_filter. apply list_filter_iff.
    intros x. rewrite not_elem_of_cons. tauto. }
  split.
  { rewrite Heids, Heids1, list_filter_filter. apply list_filter_iff.
    intros x. rewrite fmap_cons, not_elem_of_cons.
    assert ((λ b, SerialLink.get_eid b p1) <$> rest
            = (λ b, SerialLink.get_eid b p) <$> rest) as ->.
    { apply list_fmap_ext. intros i b Hb%list_elem_of_lookup_2.
      unfold SerialLink.get_eid. by rewrite Hkeep1 by by apply Hne. }
    split; [intros [? ?]; split; [congruence|done]
           |intros [? ?]; split; [done|congruence]]. }
  split.
  { intros b [->|Hb]%elem_of_cons.
    - by rewrite (Hkeep a Ha).
    - by rewrite (Hblank b Hb), (Hkeep1 b (Hne b Hb)). }
  split.
  { intros b [Hba Hb]%not_elem_of_cons. by rewrite (Hkeep b Hb), Hkeep1. }
  split.
  { rewrite Hcalls, Hcalls1, <- app_assoc. f_equal. cbn [omap list_omap].
    assert (omap (λ b, Kill <$> (link_objs p1 !! b ≫= _link_pid)) rest
            = omap (λ b, Kill <$> (link_objs p !! b ≫= _link_pid)) rest) as ->.
    { clear -Hne Hkeep1. induction rest as [|b rest IH]; [done|].
      cbn [omap list_omap]. rewrite Hkeep1 by (apply Hne; by left).
      rewrite IH; [done|]. intros c Hc. apply Hne. by right. }
    by destruct (link_objs p !! a ≫= _link_pid). }
  split; [congruence|]. split; congruence.
Qed.

(** What [close] of a controller does, given what the loop over its links
    has done. *)
Lemma controller_close_spec self p c :
  ctl_objs p !! self = Some c →
  let p1 := (close_links (_serial_links c) p).1 in
  let q := (close self p).1 in
  link_objs q = link_objs p1 ∧ _assigned_links q = _assigned_links p1
  ∧ _allocated_eids q = _allocated_eids p1 ∧ stdout q = stdout p1
  ∧ calls q = calls p1 ++ [systemctl "stop"]
  ∧ ctl_objs q = alter (set_serial_links []) self (ctl_objs p1)
  ∧ _instance q = None.
Proof.
  intros Hc. cbn zeta. unfold close. rewrite Hc.
  pose proof (close_links_ok (_serial_links c) p) as Hok.
  destruct (close_links (_serial_links c) p) as [p1 r]. cbn [snd] in Hok.
  subst r. cbn [fst].
  destruct (_instance (call _ _)) eqn:Hslot; cbn in *; by rewrite ?Hslot.
Qed.



Lemma omap_kills (g : nat → option Z) (links : list nat) :
  (∀ a, a ∈ links → is_Some (g a)) →
  ∃ pids, omap (λ a, Kill <$> g a) links = Kill <$> pids
          ∧ length pids = length links.
Proof.
  induction links as [|a links IH]; intros Hall; [by exists []|].
  destruct (Hall a) as [pid Hpid]; [by left|].
  destruct IH as (pids & Heq & Hlen); [intros b Hb; apply Hall; by right|].
  exists (pid :: pids). cbn [omap list_omap]. rewrite Hpid. cbn.
  by rewrite Heq, Hlen.
Qed.

(** X23.  A construction that ends with the timeout of the stabilisation
    loop has undone what it had set up: every link it opened has got its
    signal and is blank, the daemon has been stopped, and the two class
    lists and the slot are as before the construction. *)
Theorem X23_timeout_unwinds (env : ctor_env) (config_file_path : string)
    (args : list string) (p : process) :
  SerialLink.pool_inv p →
  (__init__ env config_file_path args p).2
    = Raise (AssertionError msg_not_stable) →
  let q := (__init__ env config_file_path args p).1 in
  let files := match_devices (glob env) args in
  _allocated_eids q = _allocated_eids p
  ∧ _assigned_links q = _assigned_links p
  ∧ _instance q = None ∧ _instance p = None
  ∧ link_objs q
    = link_objs p ++ replicate (length files) SerialLink.blank_link
  ∧ serial_links (length (ctl_objs p)) q = []
  ∧ ∃ before pids,
      calls q = calls p ++ before ++ (Kill <$> pids) ++ [systemctl "stop"]
      ∧ length pids = length files
      ∧ (∀ pid, Kill pid ∉ before).
Proof.
  intros Hinv Hraise q files. subst q.
  destruct (init_cases env config_file_path args p)
    as [(_ & _ & Hnot)
       |(p2 & p3 & r & (Hobjs & Hlinks & Heids & Hcalls & Hinst) & Hnone
         & Hctl2 & Hopen & Hout)];
    [by destruct (Hnot _ Hraise)|].
  destruct r as [[]|e'|]; cycle 1.
  { rewrite Hout in Hraise. injection Hraise as ->.
    by apply open_links_fail in Hopen as [Hnot _]. }
  { by rewrite Hout in Hraise. }
  destruct Hout as (p4 & E1 & E2 & E3 & E4 & E5 & E6 & Hout).
  assert (SerialLink.pool_inv p3) as Hinv3.
  { pose proof (open_links_inv env (length (ctl_objs p))
                  (match_devices (glob env) args) p2) as H3.
    rewrite Hopen in H3. apply H3. by eapply pool_inv_same; [..|exact Hinv]. }
  apply open_links_ok in Hopen
    as (objs & eids & Hobjs3 & Hdev & Heid & _ & Hnd & Hfresh & Heids3
        & Hlinks3 & Hctl3 & Hinst3 & _ & Hcalls3 & Hthree).
  fold files in Hdev, Hlinks3, Hctl3.
  set (n := length (link_objs p)) in *. rewrite Hobjs in Hlinks3, Hctl3.
  fold n in Hlinks3, Hctl3. rewrite Heids in Hfresh.
  assert (length objs = length files ∧ length eids = length files)
    as [Hlen Hlen'].
  { pose proof (f_equal length Hdev) as L1.
    pose proof (f_equal length Heid) as L2.
    rewrite !length_fmap in L1. rewrite !length_fmap in L2. lia. }
  pose proof (stabilize_spec enough_polls (polls env) (length (ctl_objs p))
                0 0 (-1) p4) as Hloop.
  cbn zeta in Hloop. rewrite Hout in Hraise |- *.
  destruct (stabilize enough_polls (polls env) _ 0 0 (-1) p4)
    as [p5 [[]|e5|]]; [done| |done].
  cbn [fst snd] in *. injection Hraise as ->.
  destruct Hloop
    as [(_ & q' & (F1 & F2 & F3 & F4 & F5 & _ & evs & F7 & Hevs) & ->)
       |([?|?] & _)]; [|done..].
  set (c := mkController
              (Config._configure_eid_range (fs env) [] config_file_path).1
              (seq n (length files)) (Some "/au/com/codeconstruct/mctp1")).
  assert (ctl_objs q' !! length (ctl_objs p) = Some c) as Hc.
  { rewrite F4, E6, Hctl3, Hctl2, !alter_last. by apply list_lookup_middle. }
  assert (SerialLink.pool_inv q') as Hinv'.
  { eapply pool_inv_same; [..|exact Hinv3]; congruence. }
  destruct (controller_close_spec _ q' c Hc)
    as (Gobjs & Glinks & Geids & _ & Gcalls & Gctl & Gslot).
  destruct (close_links_exact (seq n (length files)) q' Hinv'
              (NoDup_seq _ _))
    as (Hlinks1 & Heids1 & Hblank & Hkeep & Hcalls1 & Hctl1 & _).
  cbn [_serial_links c] in *.
  assert (∀ i, link_objs q' !! (n + i)%nat = objs !! i) as Hat.
  { intros i. rewrite F1, E1, Hobjs3, Hobjs, lookup_app_r by (unfold n; lia).
    f_equal. unfold n. lia. }
  assert (∀ i x, SerialLink.get_eid (n + i) q' = Some x ↔ eids !! i = Some x)
    as Hheld.
  { intros i x. unfold SerialLink.get_eid. rewrite Hat.
    assert ((_eid <$> objs) !! i = (Some <$> eids) !! i) as Hi
      by by rewrite Heid.
    rewrite !list_lookup_fmap in Hi.
    destruct (objs !! i) as [l|], (eids !! i) as [x'|]; simpl in *;
      simplify_eq; try done.
    by rewrite Hi. }
  split.
  { rewrite Geids, Heids1, F3, E3, Heids3, Heids, filter_app.
    rewrite (filter_none _ eids), app_nil_r.
    - apply filter_all, Forall_forall. intros x Hx Hin.
      apply list_elem_of_fmap in Hin as (a & Ha & [Hge Hlt]%elem_of_seq).
      replace a with (n + (a - n))%nat in Ha by lia. symmetry in Ha.
      apply Hheld, list_elem_of_lookup_2 in Ha. exact (Hfresh _ Ha Hx).
    - apply Forall_forall. intros x [i Hi]%list_elem_of_lookup_1 Hnot.
      apply Hnot, list_elem_of_fmap. exists (n + i)%nat.
      split; [symmetry; by apply Hheld|].
      apply elem_of_seq. apply lookup_lt_Some in Hi. lia. }
  split.
  { rewrite Glinks, Hlinks1, F2, E2, Hlinks3, Hlinks, filter_app.
    rewrite (filter_none _ (seq n _)), app_nil_r.
    - apply filter_all, Forall_forall. intros a Ha [Hge _]%elem_of_seq.
      apply (SerialLink.inv_links_bound _ Hinv) in Ha. unfold n in Hge. lia.
    - apply Forall_forall. intros a Ha Hnot. done. }
  split; [done|]. split; [done|]. split.
  { rewrite Gobjs. apply list_eq. intros a.
    destruct (decide (a < n)%nat) as [Ha|Ha].
    - rewrite Hkeep by (intros [? ?]%elem_of_seq; lia).
      rewrite F1, E1, Hobjs3, Hobjs. by rewrite !lookup_app_l by done.
    - rewrite lookup_app_r by (unfold n in Ha; lia). fold n.
      destruct (decide (a < n + length files)%nat) as [Hb|Hb].
      + rewrite Hblank by (apply elem_of_seq; lia).
        replace a with (n + (a - n))%nat at 1 by lia. rewrite Hat.
        destruct (lookup_lt_is_Some_2 objs (a - n)) as [l ->]; [lia|].
        cbn. symmetry. apply lookup_replicate_2. lia.
      + rewrite Hkeep by (intros [? ?]%elem_of_seq; lia).
        replace a with (n + (a - n))%nat at 1 by lia. rewrite Hat.
        rewrite lookup_ge_None_2 by lia. symmetry.
        apply lookup_replicate_None. lia. }
  split.
  { unfold serial_links. rewrite Gctl, Hctl1, list_lookup_alter_eq, Hc.
    done. }
  destruct (omap_kills (λ a, link_objs q' !! a ≫= _link_pid)
              (seq n (length files))) as (pids & Hpids & Hplen).
  { intros a [Hge Hlt]%elem_of_seq.
    replace a with (n + (a - n))%nat by lia. rewrite Hat.
    destruct (lookup_lt_is_Some_2 objs (a - n)) as [l Hl]; [lia|].
    rewrite Hl. cbn. rewrite Forall_forall in Hthree.
    pose proof (Hthree l (list_elem_of_lookup_2 _ _ _ Hl)) as H3.
    unfold provisioning_calls in H3.
    by destruct (_device_path l), (_link_pid l). }
  exists (mjoin (provisioning_calls <$> objs)
          ++ restart_calls (service_active env) ++ evs), pids.
  split.
  { rewrite Gcalls, Hcalls1, Hpids, F7, E5, Hcalls3, Hcalls, <- !app_assoc.
    reflexivity. }
  split; [by rewrite Hplen, length_seq|].
  apply (no_kill_among (λ ev, mctp_call ev ∨ loop_call ev
                              ∨ ev ∈ restart_calls (service_active env)));
    [intros pid [?|[?|Hin]]; try done;
     unfold restart_calls in Hin; destruct (service_active env);
     repeat (apply elem_of_cons in Hin as [?|Hin]; [done|]);
     by apply elem_of_nil in Hin|].
  apply Forall_app. split.
  { clear. induction objs as [|l objs IH]; [constructor|].
    cbn. apply Forall_app. split; [|done].
    eapply Forall_impl; [apply provisioning_calls_mctp|]. by left. }
  apply Forall_app. split.
  { apply Forall_forall. intros ev Hev. by right; right. }
  eapply Forall_impl; [exact Hevs|]. intros ev Hev. by right; left.
Qed.

(** On a bus whose number of endpoints goes up from poll to poll the loop
    ends with the timeout, and the two EIDs are free again. *)
Lemma X23_timeout_unwinds_witness :
  _allocated_eids (__init__ Cases.growing_bus "/etc/mctpd.conf"
                     ["/dev/ttyUSB?"] start).1
  = _allocated_eids start.
Proof.
  assert ((__init__ Cases.growing_bus "/etc/mctpd.conf" ["/dev/ttyUSB?"]
             start).2 = Raise (AssertionError msg_not_stable)) as Hraise
    by (vm_compute; reflexivity).
  exact (proj1 (X23_timeout_unwinds _ _ _ _ inv_start Hraise)).
Defined.




(* ===================================================================== *)
(** * More about the address record and the two senders                   *)
(* ===================================================================== *)

Import Datagram.

Lemma pack_H_spec le v :
  match pack_H le v with
  | Ok bytes =>
      0 ≤ v ≤ 65535 ∧ ∃ lo hi, 0 ≤ lo ≤ 255 ∧ 0 ≤ hi ≤ 255
        ∧ v = 256 * hi + lo
        ∧ bytes = if le then [lo; hi] else [hi; lo]
  | Raise e => e = StructError ∧ ¬ 0 ≤ v ≤ 65535
  | Diverge => False
  end.
Proof.
  unfold pack_H. case_bool_decide as Hv; [|done].
  split; [done|]. exists (v `mod` 256), (v `div` 256).
  pose proof (Z.mod_pos_bound v 256). pose proof (Z.div_mod v 256).
  assert (0 ≤ v `div` 256 ≤ 255)
    by (split; [apply Z.div_pos; lia|];
        assert (v `div` 256 < 256) by (apply Z.div_lt_upper_bound; lia); lia).
  repeat split; try lia.
Qed.

Lemma pack_B_spec v :
  match pack_B v with
  | Ok bytes => 0 ≤ v ≤ 255 ∧ bytes = [v]
  | Raise e => e = StructError ∧ ¬ 0 ≤ v ≤ 255
  | Diverge => False
  end.
Proof. unfold pack_B. by case_bool_decide. Qed.

(** What [struct.pack] does with the seven fields. *)
Lemma pack_spec (le : bool) (h1 h2 b1 b2 b3 b4 b5 : Z) :
  let in_range :=
    0 ≤ h1 ≤ 65535 ∧ 0 ≤ h2 ≤ 65535 ∧ 0 ≤ b1 ≤ 255 ∧ 0 ≤ b2 ≤ 255
    ∧ 0 ≤ b3 ≤ 255 ∧ 0 ≤ b4 ≤ 255 ∧ 0 ≤ b5 ≤ 255 in
  match pack_HHBBBBB le h1 h2 b1 b2 b3 b4 b5 with
  | Ok bytes =>
      in_range ∧ length bytes = 9%nat ∧ Forall (λ b, 0 ≤ b ≤ 255) bytes
      ∧ drop 4 bytes = [b1; b2; b3; b4; b5]
      ∧ ∀ h1' h2' b1' b2' b3' b4' b5',
          pack_HHBBBBB le h1' h2' b1' b2' b3' b4' b5' = Ok bytes →
          h1' = h1 ∧ h2' = h2 ∧ b1' = b1 ∧ b2' = b2 ∧ b3' = b3 ∧ b4' = b4
          ∧ b5' = b5
  | Raise e => e = StructError ∧ ¬ in_range
  | Diverge => False
  end.
Proof.
  cbn zeta. unfold pack_HHBBBBB.
  pose proof (pack_H_spec le h1) as H1. pose proof (pack_H_spec le h2) as H2.
  pose proof (pack_B_spec b1) as B1. pose proof (pack_B_spec b2) as B2.
  pose proof (pack_B_spec b3) as B3. pose proof (pack_B_spec b4) as B4.
  pose proof (pack_B_spec b5) as B5.
  destruct (pack_H le h1) as [x1|e|]; cbn [mbind res_bind]; [|split; [tauto|lia]|done].
  destruct (pack_H le h2) as [x2|e|]; cbn [mbind res_bind]; [|split; [tauto|lia]|done].
  destruct (pack_B b1) as [y1|e|]; cbn [mbind res_bind]; [|split; [tauto|lia]|done].
  destruct (pack_B b2) as [y2|e|]; cbn [mbind res_bind]; [|split; [tauto|lia]|done].
  destruct (pack_B b3) as [y3|e|]; cbn [mbind res_bind]; [|split; [tauto|lia]|done].
  destruct (pack_B b4) as [y4|e|]; cbn [mbind res_bind]; [|split; [tauto|lia]|done].
  destruct (pack_B b5) as [y5|e|]; cbn [mbind res_bind mret res_ret];
    [|split; [tauto|lia]|done].
  destruct H1 as (R1 & lo1 & hi1 & ? & ? & E1 & ->).
  destruct H2 as (R2 & lo2 & hi2 & ? & ? & E2 & ->).
  destruct B1 as [? ->], B2 as [? ->], B3 as [? ->], B4 as [? ->],
    B5 as [? ->].
  split; [done|]. split; [by destruct le|].
  split; [destruct le; repeat constructor; lia|].
  split; [by destruct le|].
  intros h1' h2' b1' b2' b3' b4' b5'.
  pose proof (pack_H_spec le h1') as H1'.
  pose proof (pack_H_spec le h2') as H2'.
  pose proof (pack_B_spec b1') as B1'. pose proof (pack_B_spec b2') as B2'.
  pose proof (pack_B_spec b3') as B3'. pose proof (pack_B_spec b4') as B4'.
  pose proof (pack_B_spec b5') as B5'.
  destruct (pack_H le h1') as [x1|e|]; cbn [mbind res_bind]; [|done..].
  destruct (pack_H le h2') as [x2|e|]; cbn [mbind res_bind]; [|done..].
  destruct (pack_B b1') as [y1|e|]; cbn [mbind res_bind]; [|done..].
  destruct (pack_B b2') as [y2|e|]; cbn [mbind res_bind]; [|done..].
  destruct (pack_B b3') as [y3|e|]; cbn [mbind res_bind]; [|done..].
  destruct (pack_B b4') as [y4|e|]; cbn [mbind res_bind]; [|done..].
  destruct (pack_B b5') as [y5|e|]; cbn [mbind res_bind mret res_ret];
    [|done..].
  destruct H1' as (_ & lo1' & hi1' & _ & _ & E1' & ->).
  destruct H2' as (_ & lo2' & hi2' & _ & _ & E2' & ->).
  destruct B1' as [_ ->], B2' as [_ ->], B3' as [_ ->], B4' as [_ ->],
    B5' as [_ ->].
  destruct le; intros [= -> -> -> -> -> -> -> -> ->]; repeat split; lia.
Qed.

(** X24.  [struct.pack("HHBBBBB", ...)] returns exactly when the two
    shorts are within 0 .. 65535 and the five bytes within 0 .. 255, and
    raises [struct.error] otherwise; the record has nine bytes; and it
    determines the seven fields: for a given byte order, different fields
    give different records. *)
Theorem X24_address_record (le : bool) (h1 h2 b1 b2 b3 b4 b5 : Z) :
  let in_range :=
    0 ≤ h1 ≤ 65535 ∧ 0 ≤ h2 ≤ 65535 ∧ 0 ≤ b1 ≤ 255 ∧ 0 ≤ b2 ≤ 255
    ∧ 0 ≤ b3 ≤ 255 ∧ 0 ≤ b4 ≤ 255 ∧ 0 ≤ b5 ≤ 255 in
  match pack_HHBBBBB le h1 h2 b1 b2 b3 b4 b5 with
  | Ok bytes =>
      in_range ∧ length bytes = 9%nat ∧ Forall (λ b, 0 ≤ b ≤ 255) bytes
      ∧ drop 4 bytes = [b1; b2; b3; b4; b5]
      ∧ ∀ h1' h2' b1' b2' b3' b4' b5',
          pack_HHBBBBB le h1' h2' b1' b2' b3' b4' b5' = Ok bytes →
          h1' = h1 ∧ h2' = h2 ∧ b1' = b1 ∧ b2' = b2 ∧ b3' = b3 ∧ b4' = b4
          ∧ b5' = b5
  | Raise e => e = StructError ∧ ¬ in_range
  | Diverge => False
  end.
Proof. apply pack_spec. Qed.

Lemma pack_returns le h1 h2 b1 b2 b3 b4 b5 :
  pack_HHBBBBB le h1 h2 b1 b2 b3 b4 b5 ≠ Diverge.
Proof.
  unfold pack_HHBBBBB.
  pose proof (pack_H_spec le h1). pose proof (pack_H_spec le h2).
  pose proof (pack_B_spec b1). pose proof (pack_B_spec b2).
  pose proof (pack_B_spec b3). pose proof (pack_B_spec b4).
  pose proof (pack_B_spec b5).
  destruct (pack_H le h1); cbn [mbind res_bind]; [|done..].
  destruct (pack_H le h2); cbn [mbind res_bind]; [|done..].
  destruct (pack_B b1); cbn [mbind res_bind]; [|done..].
  destruct (pack_B b2); cbn [mbind res_bind]; [|done..].
  destruct (pack_B b3); cbn [mbind res_bind]; [|done..].
  destruct (pack_B b4); cbn [mbind res_bind]; [|done..].
  by destruct (pack_B b5).
Qed.

(** X25.  [send_mctp_datagram] returns [True] exactly when the socket is
    created, the address record can be packed and [sendto] returns.  Then
    the calls are the creation of the socket of family 45, one [sendto]
    with the payload and that record, and the [close] of the socket, and
    nothing is printed.  Otherwise one line is printed, nothing is raised,
    and the socket is not closed: after a record that cannot be packed or a
    [sendto] that fails the socket has been created and [close] is not
    among the calls. *)
Theorem X25_send_outcome (env : socket_env)
    (network_id destination_eid message_type tag_owner : Z)
    (payload : list Z) (p : process) :
  let out := send_mctp_datagram env network_id destination_eid message_type
               tag_owner payload p in
  let sockaddr := datagram_sockaddr (little_endian env) network_id
                    destination_eid message_type tag_owner in
  let sent :=
    socket_ok env = true
    ∧ ∃ a, sockaddr = Ok a ∧ sendto_ok env payload a = true in
  (out.2 = true ↔ sent)
  ∧ (is_ok sockaddr = true ↔
       0 ≤ network_id ≤ 65535 ∧ 0 ≤ destination_eid ≤ 255
       ∧ 0 ≤ tag_owner ≤ 255 ∧ 0 ≤ message_type ≤ 255)
  ∧ (∀ a, out.2 = true → sockaddr = Ok a →
       calls (out.1)
       = calls p ++ [Socket AF_MCTP SOCK_DGRAM 0; SendTo payload a;
                     SocketClose]
       ∧ stdout (out.1) = stdout p)
  ∧ (out.2 = false →
       (∃ line, stdout (out.1) = stdout p ++ [line])
       ∧ ∃ evs, calls (out.1) = calls p ++ Socket AF_MCTP SOCK_DGRAM 0 :: evs
                ∧ (SocketClose ∉ evs)
                ∧ (socket_ok env = true → is_ok sockaddr = true →
                   ∃ a, sockaddr = Ok a ∧ evs = [SendTo payload a]))
  ∧ link_objs (out.1) = link_objs p
  ∧ _allocated_eids (out.1) = _allocated_eids p
  ∧ _instance (out.1) = _instance p.
Proof.
  cbn zeta.
  match goal with |- ?A ∧ ?B ∧ ?C => cut (B ∧ A ∧ C); [tauto|] end.
  split.
  { pose proof (pack_spec (little_endian env) AF_MCTP network_id 0 0
                  destination_eid tag_owner message_type) as Hpack.
    cbn zeta in Hpack. unfold datagram_sockaddr.
    destruct (pack_HHBBBBB _ _ _ _ _ _ _ _) as [a|e|]; [| |done].
    - split; [|done]. intros _. lia.
    - split; [done|]. intros Hr. destruct Hpack as [_ Hno]. destruct Hno.
      unfold AF_MCTP. lia. }
  unfold send_mctp_datagram.
  pose proof (pack_returns (little_endian env) AF_MCTP network_id 0 0
                destination_eid tag_owner message_type) as Hret.
  fold (datagram_sockaddr (little_endian env) network_id destination_eid
          message_type tag_owner) in Hret.
  destruct (socket_ok env); cbn [negb].
  2:{ cbn. split; [split; [done|by intros [? _]]|]. split; [done|].
      split; [|done]. intros _. split; [by eexists|]. exists [].
      split; [done|]. split; [by intros ?%elem_of_nil|done]. }
  destruct (datagram_sockaddr _ _ _ _ _) as [a|e|]; [| |done].
  - destruct (sendto_ok env payload a) eqn:Hsend; cbn [negb].
    + cbn. split; [split; [by eauto|done]|].
      split; [intros a' _ [= <-]; by rewrite <- !app_assoc|]. done.
    + cbn. split.
      { split; [done|]. intros (_ & a' & [= <-] & Ha). congruence. }
      split; [done|]. split; [|done]. intros _. split; [by eexists|].
      exists [SendTo payload a]. split; [by rewrite <- app_assoc|].
      split; [|by eauto].
      intros [?|?%elem_of_nil]%elem_of_cons; done.
  - cbn. split; [split; [done|by intros (_ & a & ? & _)]|].
    split; [done|]. split; [|done]. intros _. split; [by eexists|].
    exists []. split; [done|]. split; [by intros ?%elem_of_nil|done].
Qed.

(* ===================================================================== *)
(** * The names of the network interfaces                                 *)
(* ===================================================================== *)

Import Regex Interfaces.

Lemma append_nil_r (s : string) : s +:+ EmptyString = s.
Proof.
  induction s as [|c s IH]; [done|].
  change (String c (s +:+ EmptyString) = String c s). by rewrite IH.
Qed.

Lemma rev_app_twice (s a b : string) :
  String.rev_app (String.rev_app s a) b = String.rev_app a (s +:+ b).
Proof.
  revert a b. induction s as [|c s IH]; intros a b; [done|].
  cbn [String.rev_app]. by rewrite IH.
Qed.

Lemma rev_involutive (s : string) : String.rev (String.rev s) = s.
Proof.
  unfold String.rev. rewrite rev_app_twice. cbn [String.rev_app].
  apply append_nil_r.
Qed.

(** The fields of a string without a colon: the string itself. *)
Lemma split_acc_no_colon field s :
  no_colon s = true → split_acc field s = [field +:+ s].
Proof.
  unfold no_colon. revert field. induction s as [|c s IH]; intros field.
  - intros _. by rewrite append_nil_r.
  - cbn [all_chars split_acc]. intros [Hc Hs]%andb_prop.
    apply negb_true_iff, bool_decide_eq_false in Hc.
    rewrite decide_False by done. rewrite (IH _ Hs), append_assoc. done.
Qed.

(** The first colon ends the first field. *)
Lemma split_acc_colon field a b :
  no_colon a = true →
  split_acc field (a +:+ ":" +:+ b) = (field +:+ a) :: split_acc EmptyString b.
Proof.
  unfold no_colon. revert field. induction a as [|c a IH]; intros field.
  - intros _. by rewrite append_nil_r.
  - cbn [all_chars]. intros [Hc Ha]%andb_prop.
    apply negb_true_iff, bool_decide_eq_false in Hc.
    change (String c a +:+ ":" +:+ b) with (String c (a +:+ ":" +:+ b)).
    cbn [split_acc]. rewrite decide_False by done.
    rewrite (IH _ Ha), append_assoc. done.
Qed.

Lemma split_acc_head field s : ∃ f rest, split_acc field s = f :: rest.
Proof.
  revert field. induction s as [|c s IH]; intros field; [by eexists _, _|].
  cbn [split_acc]. destruct (decide _); [by eexists _, _|apply IH].
Qed.

Lemma first_colon s :
  no_colon s = false → ∃ a b, s = a +:+ ":" +:+ b ∧ no_colon a = true.
Proof.
  unfold no_colon. induction s as [|c s IH]; [done|]. cbn [all_chars].
  destruct (decide (c = ":"%char)) as [->|Hc].
  - intros _. by exists EmptyString, s.
  - rewrite bool_decide_eq_false_2 by done. cbn [negb andb].
    intros (a & b & -> & Ha)%IH. exists (String c a), b. split; [done|].
    cbn [all_chars]. by rewrite bool_decide_eq_false_2, Ha by done.
Qed.

(** [line.split(':')[1]] raises exactly on a line without a colon. *)
Lemma interface_name_None line :
  interface_name line = None ↔ no_colon line = true.
Proof.
  unfold interface_name, split_colon. split.
  - destruct (no_colon line) eqn:Hno; [done|].
    destruct (first_colon line Hno) as (a & b & -> & Ha).
    rewrite (split_acc_colon _ _ _ Ha).
    by destruct (split_acc_head EmptyString b) as (f & rest & ->).
  - intros Hno. by rewrite (split_acc_no_colon _ _ Hno).
Qed.

Lemma collect_names_spec lines interfaces :
  NoDup interfaces →
  match collect_names lines interfaces with
  | Some names =>
      NoDup names
      ∧ ∀ n, n ∈ names ↔
          n ∈ interfaces ∨ ∃ line, line ∈ lines ∧ interface_name line = Some n
  | None => ∃ line, line ∈ lines ∧ no_colon line = true
  end.
Proof.
  revert interfaces. induction lines as [|line lines IH]; intros acc Hacc.
  - cbn. split; [done|]. intros n. split; [by left|].
    intros [?|(line & Hin%elem_of_nil & _)]; done.
  - cbn [collect_names].
    destruct (interface_name line) as [name|] eqn:Hname; cbn [mbind option_bind].
    2:{ exists line. split; [by left|]. by apply interface_name_None. }
    set (acc' := if bool_decide (name ∈ acc) then acc else acc ++ [name]).
    assert (NoDup acc' ∧ ∀ n, n ∈ acc' ↔ n ∈ acc ∨ n = name) as [Hnd Hin].
    { subst acc'. case_bool_decide as Hmem.
      - split; [done|]. intros n. split; [by left|]. by intros [?| ->].
      - split.
        + apply NoDup_app. split; [done|]. split; [|apply NoDup_singleton].
          intros x Hx ->%list_elem_of_singleton. done.
        + intros n. rewrite elem_of_app, list_elem_of_singleton. done. }
    specialize (IH acc' Hnd).
    destruct (collect_names lines acc') as [names|].
    + destruct IH as [Hnames Hiff]. split; [done|]. intros n.
      rewrite Hiff, Hin. split.
      * intros [[?| ->]|(l & Hl & Hn)]; [by left|right; exists line|right; exists l];
          (split; [|done]); [by left|by right].
      * intros [?|(l & [->|Hl]%elem_of_cons & Hn)];
          [by left; left|left; right; congruence|right; by exists l].
    + destruct IH as (l & Hl & Hno). exists l. split; [by right|done].
Qed.

(** X26.  [_get_interfaces] on the lines that [ip] printed: when every
    line has a colon the result is the set of the names read off the
    lines, each name once; a single line without a colon, an empty line for
    one, makes the whole call raise. *)
Theorem X26_get_interfaces (stdout_lines : list string) :
  match _get_interfaces stdout_lines with
  | Some names =>
      NoDup names
      ∧ (∀ n, n ∈ names ↔
           ∃ line, line ∈ stdout_lines ∧ interface_name line = Some n)
      ∧ Forall (λ line, no_colon line = false) stdout_lines
  | None => ∃ line, line ∈ stdout_lines ∧ no_colon line = true
  end.
Proof.
  unfold _get_interfaces.
  pose proof (collect_names_spec stdout_lines [] (NoDup_nil_2)) as Hspec.
  assert (is_Some (collect_names stdout_lines []) →
          Forall (λ line, no_colon line = false) stdout_lines) as Hall.
  { clear Hspec. generalize (@nil string).
    induction stdout_lines as [|line lines IH]; intros acc; [by constructor|].
    cbn [collect_names].
    destruct (interface_name line) as [name|] eqn:Hname;
      cbn [mbind option_bind]; [|by intros [? ?]].
    intros Hsome. constructor; [|by eapply IH].
    destruct (no_colon line) eqn:Hno; [|done].
    apply interface_name_None in Hno. congruence. }
  destruct (collect_names stdout_lines []) as [names|]; [|done].
  destruct Hspec as [Hnd Hiff]. split; [done|]. split; [|by apply Hall].
  intros n. rewrite Hiff. split; [|by right].
  intros [Hn%elem_of_nil|?]; done.
Qed.

Lemma skip_spaces_blank_then s :
  stops is_space s → skip_spaces (" " +:+ s) = s.
Proof.
  intros Hs. change (" " +:+ s) with (String " " s). cbn [skip_spaces].
  change (is_space " ") with true. cbn. by apply skip_spaces_stops.
Qed.

(** X27.  A line as [ip -o link show] prints it, that is, an index without
    a colon, a colon and a blank, the name of the interface, a colon and
    the rest: the name read off the line is the name of the interface,
    provided the name has no colon in it and neither starts nor ends with
    white space; what follows the second colon is not looked at. *)
Theorem X27_interface_name (index name rest : string) :
  no_colon index = true → no_colon name = true → trimmed name →
  interface_name (ip_line index name rest) = Some name.
Proof.
  intros Hindex Hname [Hleft Hright].
  unfold interface_name, split_colon, ip_line.
  change (index +:+ ": " +:+ name +:+ ":" +:+ rest)
    with (index +:+ ":" +:+ (" " +:+ name) +:+ ":" +:+ rest).
  rewrite (split_acc_colon _ _ _ Hindex).
  rewrite split_acc_colon.
  2:{ unfold no_colon in *. change (" " +:+ name) with (String " " name).
      cbn [all_chars]. by rewrite Hname. }
  cbn [lookup list_lookup fmap option_fmap option_map]. f_equal.
  unfold strip, lstrip, rstrip.
  change (EmptyString +:+ " " +:+ name) with (" " +:+ name).
  rewrite skip_spaces_blank_then by done.
  rewrite (skip_spaces_stops (String.rev name)) by done.
  apply rev_involutive.
Qed.

Lemma X27_interface_name_witness :
  interface_name
    (ip_line "4" "mctpserial0"
       " <POINTOPOINT,NOARP> mtu 68 qdisc noop state DOWN link/none")
  = Some "mctpserial0".
Proof.
  apply X27_interface_name; [reflexivity|reflexivity|].
  split; vm_compute; reflexivity.
Defined.
